(* ===================================================================== *)
(* Blueberry Browser: the tool-augmented agent loop of the main process   *)
(*                                                                        *)
(* Shallow embedding of                                                   *)
(*   src/main/LLMClient.ts           (tool merge, system prompt, stream)  *)
(*   src/main/tools/*.ts             (withActiveTab, withErrorHandling)   *)
(*   src/main/tools/captchaTools.ts  (grid loop, clicks, answer cleanup)  *)
(*   src/main/CaptchaSolver.ts       (same algorithms, class version)     *)
(*   src/renderer/sidebar/src/contexts/ChatContext.tsx (activity log)     *)
(*   src/main/KeyboardShortcutHandler.ts (shortcut store, validation)     *)
(*   src/main/tools/keyboardShortcutTools.ts (the shortcut tools)         *)
(* ===================================================================== *)

From Stdlib Require Import String Ascii ZArith Lia.
From stdpp Require Import base gmap strings list.

Open Scope string_scope.

(* ===================================================================== *)
(* Part I. Definitions                                                    *)
(* ===================================================================== *)

(* --------------------------------------------------------------------- *)
(* Tool execution: effects, exceptions, and the two wrappers shared by    *)
(* browserAutomationTools.ts and captchaTools.ts                          *)
(* --------------------------------------------------------------------- *)
Module Tools.

(** A value thrown by JavaScript code: an [Error] instance (with its
    [message]) or any other value, kept as its [String(value)] rendering. *)
Inductive thrown :=
| ErrorInstance (message : string)
| OtherValue (rendered : string).

(** The observable effects a tool body can have on the page or the model. *)
Inductive effect :=
| RunJs (code : string)
| LoadURL (url : string)
| TakeScreenshot
| ModelQuery (prompt : string).

(** The tab handed out by [ToolContext.getActiveTab] (types.ts). *)
Record Tab := { tab_url : string; tab_title : string }.

(** [ToolContext]: [getActiveTab] returns the active tab or [null]. *)
Record ToolContext := { getActiveTab : option Tab }.

(** [ToolResult] of types.ts: [success], optional [message] and [error];
    the remaining open-ended fields are kept as key/value pairs. *)
Record ToolResult := {
  success : bool;
  message : option string;
  error : option string;
  extra : list (string * string)
}.

(** Asynchronous JavaScript code as a state-and-exception monad: the state
    is the log of effects performed so far, a rejected promise is [inl]. *)
Definition M (A : Type) : Type := list effect -> (thrown + A) * list effect.

Definition ret {A} (a : A) : M A := fun w => (inr a, w).

Definition bind {A B} (m : M A) (k : A -> M B) : M B :=
  fun w => match m w with
           | (inl e, w') => (inl e, w')
           | (inr a, w') => k a w'
           end.

Definition throw {A} (e : thrown) : M A := fun w => (inl e, w).

Definition perform (e : effect) : M unit := fun w => (inr tt, (w ++ [e])%list).


(** [error instanceof Error ? error.message : String(error)] *)
Definition renderThrown (e : thrown) : string :=
  match e with
  | ErrorInstance msg => msg
  | OtherValue s => s
  end.

(** withActiveTab (browserAutomationTools.ts l.8-20, captchaTools.ts l.14-26). *)
Definition withActiveTab (context : ToolContext) (fn : Tab -> M ToolResult)
  : M ToolResult :=
  match getActiveTab context with
  | None =>
      ret {| success := false; message := None;
             error := Some "No active tab available"; extra := [] |}
  | Some tab => fn tab
  end.

(** withErrorHandling (browserAutomationTools.ts l.25-36, captchaTools.ts
    l.31-42): a rejection of [fn()] becomes a failed [ToolResult]. *)
Definition withErrorHandling (fn : M ToolResult) : M ToolResult :=
  fun w => match fn w with
           | (inl e, w') =>
               (inr {| success := false; message := None;
                       error := Some (renderThrown e); extra := [] |}, w')
           | (inr r, w') => (inr r, w')
           end.

(** Every [execute] of the two tool files has the shape
    [withActiveTab(context, (tab) => withErrorHandling(async () => body))];
    [body name args tab] is the tool-specific part. *)
Definition executeTool {Args : Type}
  (body : string -> Args -> Tab -> M ToolResult)
  (context : ToolContext) (name : string) (args : Args) : M ToolResult :=
  withActiveTab context (fun tab => withErrorHandling (body name args tab)).

Definition browserAutomationToolNames : list string :=
  ["executeJavaScript"; "navigateToUrl"; "clickElement"; "typeText";
   "getPageInfo"; "getInteractiveElements"; "extractData";
   "waitForElement"; "screenshot"].

Definition captchaToolNames : list string :=
  ["detectCaptcha"; "solveCaptcha"; "solveTextCaptcha";
   "solveImageCaptcha"; "fillCaptchaAnswer"].

(** createBrowserAutomationTools(context) as a name-to-executor map. *)
Definition createBrowserAutomationTools {Args : Type}
  (body : string -> Args -> Tab -> M ToolResult) (context : ToolContext)
  : gmap string (Args -> M ToolResult) :=
  list_to_map ((fun n => (n, executeTool body context n)) <$> browserAutomationToolNames).

(** createCaptchaTools(context, model) as a name-to-executor map. *)
Definition createCaptchaTools {Args : Type}
  (body : string -> Args -> Tab -> M ToolResult) (context : ToolContext)
  : gmap string (Args -> M ToolResult) :=
  list_to_map ((fun n => (n, executeTool body context n)) <$> captchaToolNames).

End Tools.

(* --------------------------------------------------------------------- *)
(* The tool namespace of LLMClient.ts                                     *)
(* --------------------------------------------------------------------- *)
Module Registry.

(** The place a descriptor comes from. *)
Inductive origin :=
| ShortcutOrigin
| AutomationOrigin
| ChallengeOrigin
| McpOrigin (server : string).

(** A tool descriptor, identified by its origin and its name (the executor
    closure and schema are not needed to tell descriptors apart). *)
Record ToolDescriptor := { td_origin : origin; td_name : string }.

(** [ToolSet = Record<string, Tool>] (types.ts). *)
Abbreviation ToolSet := (gmap string ToolDescriptor).

(** [{ ...a, ...b }]: keys of [b] win; stdpp's [∪] is left-biased. *)
Definition objectSpread {V} (a b : gmap string V) : gmap string V := b ∪ a.

(** [Object.assign(target, source)], returning the updated target. *)
Definition objectAssign {V} (target source : gmap string V) : gmap string V :=
  source ∪ target.

Definition keyboardToolNames : list string :=
  ["addKeyboardShortcut"; "removeKeyboardShortcut"; "listKeyboardShortcuts";
   "updateKeyboardShortcut"].

Definition toolsFrom (o : origin) (names : list string) : ToolSet :=
  list_to_map ((fun n => (n, {| td_origin := o; td_name := n |})) <$> names).

Definition createKeyboardShortcutTools : ToolSet :=
  toolsFrom ShortcutOrigin keyboardToolNames.

Definition createBrowserAutomationTools : ToolSet :=
  toolsFrom AutomationOrigin Tools.browserAutomationToolNames.

Definition createCaptchaTools : ToolSet :=
  toolsFrom ChallengeOrigin Tools.captchaToolNames.

(** The tool fields of [LLMClient]. *)
Record LLMClientTools := { builtInTools : ToolSet; mcpTools : ToolSet }.

(** initializeBuiltInTools (l.73-95): keyboard tools, then browser tools. *)
Definition initializeBuiltInTools (st : LLMClientTools) : LLMClientTools :=
  {| builtInTools := objectSpread createKeyboardShortcutTools
                                  createBrowserAutomationTools;
     mcpTools := mcpTools st |}.

(** initializeMCPTools (l.128-152): [allServerTools] is the result of
    [mcpManager.getAllTools()], one tool set per server, in
    [Object.entries] order; each is [Object.assign]ed into [mcpTools]. *)
Definition initializeMCPTools (allServerTools : list (string * ToolSet))
  (st : LLMClientTools) : LLMClientTools :=
  {| builtInTools := builtInTools st;
     mcpTools := foldl (fun acc entry => objectAssign acc entry.2)
                       (mcpTools st) allServerTools |}.

(** The [allTools] object of streamResponse (l.316-320). *)
Definition allTools (st : LLMClientTools) : ToolSet :=
  objectSpread (builtInTools st) (mcpTools st).

(** The namespace handed to the model on a turn: the client has been given
    its window ([setWindow] runs initializeBuiltInTools), then
    streamResponse refreshes the MCP tools and merges. *)
Definition turnNamespace (allServerTools : list (string * ToolSet))
  (st : LLMClientTools) : ToolSet :=
  allTools (initializeMCPTools allServerTools (initializeBuiltInTools st)).

End Registry.

(* --------------------------------------------------------------------- *)
(* The context enricher: LLMClient.buildSystemPrompt and truncateText     *)
(* --------------------------------------------------------------------- *)
Module Prompt.

(** Strings are Rocq strings of 8-bit characters: JavaScript's [length]
    and [substring] count UTF-16 code units, which coincide with these
    characters on text made of code units below 256. *)
Definition nl : string := String (ascii_of_nat 10) EmptyString.

Definition MAX_CONTEXT_LENGTH : nat := 4000.

(** truncateText (l.302-305). *)
Definition truncateText (text : string) (maxLength : nat) : string :=
  if Nat.leb (String.length text) maxLength then text
  else substring 0 maxLength text ++ "...".

(** The fixed opening lines of the [parts] array (l.244-283). *)
Definition preamble : list string :=
  ["You are a powerful AI assistant integrated into a web browser with the ability to automate tasks and execute code.";
   "You can analyze web pages, interact with them, and automate workflows for the user.";
   "The user's messages may include screenshots of the current page as the first image.";
   EmptyString;
   "=== KEYBOARD SHORTCUTS ===";
   "You can manage keyboard shortcuts for automations and workflows:";
   "- 'addKeyboardShortcut': Create shortcuts with 3 action types:";
   "  - 'code': Execute JavaScript immediately when pressed (no AI involved)";
   "  - 'prompt': Send a message to you (the AI) when pressed";
   "  - 'both': Execute code AND send a prompt";
   "- 'removeKeyboardShortcut': Remove existing shortcuts";
   "- 'listKeyboardShortcuts': See all registered shortcuts";
   "- 'updateKeyboardShortcut': Modify existing shortcuts";
   EmptyString;
   "For immediate actions (like clicking a button, scrolling, or toggling something), use actionType='code'.";
   "For tasks requiring AI reasoning, use actionType='prompt'.";
   "Use accelerators like 'CmdOrCtrl+Shift+1', 'Alt+1', etc. Avoid common shortcuts (Ctrl+C, Ctrl+V, Ctrl+T, etc.).";
   EmptyString;
   "IMPORTANT: When creating shortcuts with prompts, make them GENERIC and REUSABLE:";
   "- GOOD: 'Summarize the current page and create a relevant Linear task based on the content'";
   "- Prompts should work on ANY page, not just specific URLs or topics";
   "- Let the code extract page-specific details (title, URL, content)";
   "- Keep team names/IDs if they're part of the user's workflow, but remove specific page references";
   EmptyString;
   "=== CODE EXECUTION & PAGE AUTOMATION ===";
   "You can execute JavaScript and automate interactions on the current page:";
   "- 'executeJavaScript': Run any JavaScript code on the page (DOM manipulation, data extraction, etc.)";
   "- 'navigateToUrl': Navigate to a URL";
   "- 'clickElement': Click elements by CSS selector";
   "- 'typeText': Type text into input fields";
   "- 'getPageInfo': Get page URL, title, and text content (headings, paragraphs, lists)";
   "- 'getInteractiveElements': Get interactive elements (links, buttons, inputs, forms)";
   "- 'extractData': Extract structured data using CSS selectors";
   "- 'waitForElement': Wait for elements to appear (useful after navigation)";
   "- 'screenshot': Capture a screenshot of the current page";
   EmptyString;
   "When automating, prefer using specific tools (clickElement, typeText) over raw JavaScript when possible.";
   "For complex operations, you can chain multiple tool calls together."].

(** [`\nCurrent page URL: ${url}`] *)
Definition urlPart (url : string) : string := nl ++ "Current page URL: " ++ url.

(** [`\nPage content (text):\n${truncatedText}`] *)
Definition pageTextPart (pageText : string) : string :=
  nl ++ "Page content (text):" ++ nl ++ truncateText pageText MAX_CONTEXT_LENGTH.

(** The two closing lines pushed last (l.294-297). *)
Definition closing : list string :=
  [nl ++ "Please provide helpful, accurate, and contextual responses about the current webpage.";
   "If the user asks about specific content, refer to the page content and/or screenshot provided."].

(** The [parts] array. [url] and [pageText] are [string | null]; the guards
    [if (url)] and [if (pageText)] test JavaScript truthiness, which is
    false for [null] and for the empty string. *)
Definition systemPromptParts (url pageText : option string) : list string :=
  (preamble
   ++ match url with Some (String c s) => [urlPart (String c s)] | _ => [] end
   ++ match pageText with Some (String c s) => [pageTextPart (String c s)] | _ => [] end
   ++ closing)%list.

(** buildSystemPrompt (l.240-300): [parts.join("\n")]. *)
Definition buildSystemPrompt (url pageText : option string) : string :=
  String.concat nl (systemPromptParts url pageText).

End Prompt.

(* --------------------------------------------------------------------- *)
(* The sidebar activity log: handleChatResponse in ChatContext.tsx        *)
(* --------------------------------------------------------------------- *)
Module Activity.

Inductive ActivityStatus := Calling | Complete | ErrorStatus.

Definition status_eqb (a b : ActivityStatus) : bool :=
  match a, b with
  | Calling, Calling | Complete, Complete | ErrorStatus, ErrorStatus => true
  | _, _ => false
  end.

(** [ToolActivity]; [args] and [result] are kept in serialized form. *)
Record ToolActivity := {
  act_id : string;
  act_toolName : string;
  act_status : ActivityStatus;
  act_args : option string;
  act_result : option string;
  act_timestamp : nat
}.

(** [Array.prototype.findIndex]: the first index satisfying [p], or -1. *)
Fixpoint findIndex {A} (p : A -> bool) (l : list A) : Z :=
  match l with
  | [] => (-1)%Z
  | x :: l' => if p x then 0%Z
               else let i := findIndex p l' in
                    if (i =? -1)%Z then (-1)%Z else (i + 1)%Z
  end.

(** The predicate of l.188-190. *)
Definition pendingFor (toolName : string) (a : ToolActivity) : bool :=
  String.eqb (act_toolName a) toolName && status_eqb (act_status a) Calling.

(** [{ ...updated[actualIdx], status: "complete", result }] *)
Definition markComplete (result : option string) (a : ToolActivity) : ToolActivity :=
  {| act_id := act_id a; act_toolName := act_toolName a;
     act_status := Complete; act_args := act_args a;
     act_result := result; act_timestamp := act_timestamp a |}.

(** The [setToolActivity] updater run on a [toolResult] (l.182-204).
    [actualIdx] is always in range (idx < prev.length); the [None] branch
    is the assignment past the end, which never happens. *)
Definition onToolResult (toolName : string) (result : option string)
  (prev : list ToolActivity) : list ToolActivity :=
  let idx := findIndex (pendingFor toolName) (rev prev) in
  if (idx =? -1)%Z then prev
  else
    let actualIdx := Z.to_nat (Z.of_nat (length prev) - 1 - idx) in
    match prev !! actualIdx with
    | Some a => <[actualIdx := markComplete result a]> prev
    | None => prev
    end.

(** The [setToolActivity] updater run on a [toolCall] (l.167-179). *)
Definition onToolCall (activityId toolName : string) (args : option string)
  (now : nat) (prev : list ToolActivity) : list ToolActivity :=
  (prev ++ [{| act_id := activityId; act_toolName := toolName;
               act_status := Calling; act_args := args;
               act_result := None; act_timestamp := now |}])%list.

End Activity.

(* --------------------------------------------------------------------- *)
(* The challenge solver (captchaTools.ts; CaptchaSolver.ts is the same    *)
(* algorithm written as class methods)                                    *)
(* --------------------------------------------------------------------- *)
Module Captcha.

(* ---- answer clean-up of solveTextCaptcha / solveImageCaptcha ---- *)

(** JavaScript's [\s] class and the characters [String.prototype.trim]
    removes, restricted to code units below 256: TAB, LF, VT, FF, CR,
    SPACE and NO-BREAK SPACE. *)
Definition isJsWhitespace (c : ascii) : bool :=
  let n := nat_of_ascii c in
  (Nat.leb 9 n && Nat.leb n 13) || Nat.eqb n 32 || Nat.eqb n 160.

(** The class [a-zA-Z0-9]. *)
Definition isAsciiAlnum (c : ascii) : bool :=
  let n := nat_of_ascii c in
  (Nat.leb 97 n && Nat.leb n 122) || (Nat.leb 65 n && Nat.leb n 90)
  || (Nat.leb 48 n && Nat.leb n 57).

Fixpoint dropWhile (p : ascii -> bool) (s : list ascii) : list ascii :=
  match s with
  | [] => []
  | c :: s' => if p c then dropWhile p s' else s
  end.

(** [s.trim()] *)
Definition trim (s : list ascii) : list ascii :=
  rev (dropWhile isJsWhitespace (rev (dropWhile isJsWhitespace s))).

(** [s.split("\n")[0]] *)
Fixpoint firstLine (s : list ascii) : list ascii :=
  match s with
  | [] => []
  | c :: s' => if Nat.eqb (nat_of_ascii c) 10 then [] else c :: firstLine s'
  end.

(** [s.replace(/[^a-zA-Z0-9\s]/g, "")] *)
Definition removeSpecialChars (s : list ascii) : list ascii :=
  List.filter (fun c => isAsciiAlnum c || isJsWhitespace c) s.

(** [let answer = text.trim().split("\n")[0];
     answer = answer.replace(/[^a-zA-Z0-9\s]/g, "");]
    (captchaTools.ts l.424-425 and l.487-488, CaptchaSolver.ts l.418-419). *)
Definition cleanAnswer (text : string) : string :=
  string_of_list_ascii
    (removeSpecialChars (firstLine (trim (list_ascii_of_string text)))).

(* ---- clickCaptchaImages: the script run in the page ---- *)

(** What the click script finds in the page: whether a challenge frame was
    found, how many grid cells [querySelectorAll] returned, and whether a
    verify button exists. *)
Record GridPage := {
  frameFound : bool;
  cellCount : nat;
  verifyButton : bool
}.

Inductive PageClick := ClickCell (cellIndex : nat) | ClickVerify.

(** [clickNext] (l.176-200), one call per remaining index; the random
    delays between the calls do not change which cells are clicked. *)
Fixpoint clickNext (cells : nat) (indices : list Z) : list PageClick :=
  match indices with
  | [] => []
  | index :: rest =>
      let cellIndex := (index - 1)%Z in
      (if (0 <=? cellIndex)%Z && (cellIndex <? Z.of_nat cells)%Z
       then [ClickCell (Z.to_nat cellIndex)] else [])
      ++ clickNext cells rest
  end%list.

(** The click script (l.129-212): the clicks it performs and the value its
    promise resolves to. *)
Definition clickScript (page : GridPage) (indices : list Z)
  : list PageClick * bool :=
  if negb (frameFound page) then ([], false)
  else if Nat.eqb (cellCount page) 0 then ([], false)
  else ((clickNext (cellCount page) indices
         ++ (if verifyButton page then [ClickVerify] else []))%list, true).

(** clickCaptchaImages (l.125-221): [None] is a [runJs] that throws. *)
Definition clickCaptchaImages (page : option GridPage) (imageIndices : list Z)
  : bool :=
  match page with
  | None => false
  | Some p => snd (clickScript p imageIndices)
  end.

(* ---- solveVisualCaptcha ---- *)

(** [RecaptchaAnalysis], the object returned by [generateObject]. *)
Record RecaptchaAnalysis := {
  ra_prompt : string;
  ra_gridSize : Z;
  ra_selectedImages : list Z
}.

(** The four results of solveVisualCaptcha (l.226-304). *)
Inductive VisualSolution :=
| Selected (images : list Z)         (* success: true *)
| CouldNotClick (images : list Z)    (* success: false, "could not click" *)
| NoImagesIdentified                 (* success: false, "No images identified" *)
| AnalysisFailed.                    (* success: false, screenshot/model threw *)

Definition visualSuccess (s : VisualSolution) : bool :=
  match s with Selected _ => true | _ => false end.

(** solveVisualCaptcha: [analysis] is [None] when the screenshot or the
    model call throws; [page] is what the click script meets. *)
Definition solveVisualCaptcha (analysis : option RecaptchaAnalysis)
  (page : option GridPage) : VisualSolution :=
  match analysis with
  | None => AnalysisFailed
  | Some a =>
      match ra_selectedImages a with
      | [] => NoImagesIdentified
      | sel => if clickCaptchaImages page sel then Selected sel
               else CouldNotClick sel
      end
  end.

(* ---- the interactive-grid loop of autoSolveCaptcha ---- *)

(** What the page and the model answer during the loop, indexed by the
    value of [iteration]: [env_present n] is [isChallengePresent] when
    [iteration = n] (checked before the increment); [env_analysis n] and
    [env_page n] are the judgment and the page met in round [n] (n >= 1). *)
Record GridEnv := {
  env_present : nat -> bool;
  env_analysis : nat -> option RecaptchaAnalysis;
  env_page : nat -> option GridPage
}.

(** The results of the recaptcha/hcaptcha branch, with the value of
    [iteration] at the return. *)
Inductive GridOutcome :=
| Resolved (iteration : nat)                          (* success: true *)
| RoundFailed (iteration : nat) (s : VisualSolution)  (* !solution.success *)
| Exhausted (iteration : nat).                        (* iteration > 20 *)

(** The [while (true)] loop (captchaTools.ts l.567-609, CaptchaSolver.ts
    l.573-614). [fuel] bounds the number of rounds of the model; the
    source loop itself returns by round 21 at the latest (see
    [gridLoop_fuel] below), so any fuel from 21 on gives the same result. *)
Fixpoint gridLoop (env : GridEnv) (fuel : nat) (iteration : nat)
  : option GridOutcome :=
  match fuel with
  | 0 => None
  | S fuel' =>
      if negb (env_present env iteration) then Some (Resolved iteration)
      else
        let iteration := S iteration in
        let solution := solveVisualCaptcha (env_analysis env iteration)
                                           (env_page env iteration) in
        if negb (visualSuccess solution) then Some (RoundFailed iteration solution)
        else if Nat.ltb 20 iteration then Some (Exhausted iteration)
        else gridLoop env fuel' iteration
  end.

(** The recaptcha/hcaptcha branch, entered with [iteration = 0]. *)
Definition autoSolveGrid (env : GridEnv) : option GridOutcome :=
  gridLoop env 21 0.

End Captcha.

(* --------------------------------------------------------------------- *)
(* The multi-step turn: LLMClient.streamResponse and processFullStream    *)
(* --------------------------------------------------------------------- *)
Module Steps.

(** The [fullStream] parts processFullStream distinguishes (l.344-412). *)
Inductive StreamChunk :=
| TextDelta (text : string)
| ToolCallChunk (toolName : string)
| ToolResultChunk (toolName : string)
| ToolErrorChunk (toolName : string)
| FinishChunk
| ErrorChunk
| OtherChunk.

(** One step: the parts one model invocation (and the execution of the
    tools it called) contributes to [fullStream]. *)
Record StepResult := { stepChunks : list StreamChunk }.

Definition isToolCall (c : StreamChunk) : bool :=
  match c with ToolCallChunk _ => true | _ => false end.

(** The parts that answer a tool call: a [tool-result], or a [tool-error]
    when the tool threw or is unknown. processFullStream ignores
    [tool-error] parts (its [default] branch), the step loop does not. *)
Definition isToolOutput (c : StreamChunk) : bool :=
  match c with ToolResultChunk _ | ToolErrorChunk _ => true | _ => false end.

Definition toolCallCount (r : StepResult) : nat :=
  length (List.filter isToolCall (stepChunks r)).

Definition toolOutputCount (r : StepResult) : nat :=
  length (List.filter isToolOutput (stepChunks r)).

(** [stepCountIs(n)] of the [ai] package: [({ steps }) => steps.length === n]. *)
Definition stepCountIs (n : nat) (steps : list StepResult) : bool :=
  Nat.eqb (length steps) n.

(** The stop condition streamResponse passes: [stopWhen: stepCountIs(10)]. *)
Definition streamResponseStopWhen : list StepResult -> bool := stepCountIs 10.

(** The condition under which [streamText] of the [ai] package starts
    another step after the step [r] that made the step list [steps]: the
    step called tools, every call has its output (a result or an error),
    and [stopWhen] does not hold on the steps so far. *)
Definition continueAfter (stopWhen : list StepResult -> bool)
  (r : StepResult) (steps : list StepResult) : bool :=
  Nat.ltb 0 (toolCallCount r) && Nat.eqb (toolOutputCount r) (toolCallCount r)
  && negb (stopWhen steps).

(** The step loop of [streamText], which streamResponse drives:
    [generate steps] is the step the model makes given the original
    messages enlarged with the steps made so far.
    [streamTextRun generate stopWhen steps final]: starting after [steps],
    the loop ends with the step list [final]. *)
Inductive streamTextRun (generate : list StepResult -> StepResult)
  (stopWhen : list StepResult -> bool)
  : list StepResult -> list StepResult -> Prop :=
| run_last steps :
    continueAfter stopWhen (generate steps) (steps ++ [generate steps])%list = false ->
    streamTextRun generate stopWhen steps (steps ++ [generate steps])%list
| run_more steps final :
    continueAfter stopWhen (generate steps) (steps ++ [generate steps])%list = true ->
    streamTextRun generate stopWhen (steps ++ [generate steps])%list final ->
    streamTextRun generate stopWhen steps final.

(** The [fullStream] of a run: the parts of all its steps, in order. *)
Definition fullStream (steps : list StepResult) : list StreamChunk :=
  List.concat (List.map stepChunks steps).

(** The [accumulatedText] loop of processFullStream: a text delta is
    appended when it is non-empty ([if (textContent)]). *)
Fixpoint accumulateText (accumulatedText : string) (chunks : list StreamChunk)
  : string :=
  match chunks with
  | [] => accumulatedText
  | TextDelta t :: rest =>
      match t with
      | EmptyString => accumulateText accumulatedText rest
      | _ => accumulateText (accumulatedText ++ t) rest
      end
  | _ :: rest => accumulateText accumulatedText rest
  end.

(** processFullStream (l.334-419): the [content] of the final chunk sent
    with [isComplete: true]. *)
Definition processFullStream (chunks : list StreamChunk) : string :=
  accumulateText EmptyString chunks.

(** The text of a step list, delta by delta. *)
Definition stepsText (steps : list StepResult) : string :=
  String.concat EmptyString
    (List.flat_map (fun r => List.flat_map
                       (fun c => match c with TextDelta t => [t] | _ => [] end)
                       (stepChunks r)) steps).

End Steps.

(* --------------------------------------------------------------------- *)
(* JavaScript string primitives used by the code below                    *)
(* --------------------------------------------------------------------- *)
Module JsString.

(** [String.prototype.toLowerCase] on one code unit below 256: A-Z and
    the Latin-1 capitals U+00C0-U+00DE (except U+00D7) move up by 32. *)
Definition lowerChar (c : ascii) : ascii :=
  let n := nat_of_ascii c in
  if (Nat.leb 65 n && Nat.leb n 90)
     || (Nat.leb 192 n && Nat.leb n 222 && negb (Nat.eqb n 215))
  then ascii_of_nat (n + 32) else c.

Fixpoint toLowerCase (s : string) : string :=
  match s with
  | EmptyString => EmptyString
  | String c s' => String (lowerChar c) (toLowerCase s')
  end.

(** [s.includes(sub)] *)
Fixpoint includes (s sub : string) : bool :=
  String.prefix sub s
  || match s with
     | EmptyString => false
     | String _ s' => includes s' sub
     end.

(** [s.startsWith(p)] *)
Definition startsWith (s p : string) : bool := String.prefix p s.

(** [s.split(sep)] for a one-character separator: the empty string gives
    one empty part, and every separator starts a new (possibly empty) part. *)
Fixpoint split (sep : ascii) (s : string) : list string :=
  match s with
  | EmptyString => [EmptyString]
  | String c s' =>
      let parts := split sep s' in
      if Ascii.eqb c sep then EmptyString :: parts
      else match parts with
           | p :: ps => String c p :: ps
           | [] => [String c EmptyString]
           end
  end.

(** JavaScript truthiness of a [string | undefined]. *)
Definition truthy (s : option string) : bool :=
  match s with Some (String _ _) => true | _ => false end.

(** [a || b] on a [string | undefined] and a string. *)
Definition orElse (s : option string) (b : string) : string :=
  match s with Some (String c r) => String c r | _ => b end.

(** The double-quote character, used in messages that quote a value. *)
Definition dq : string := String (ascii_of_nat 34) EmptyString.

End JsString.

(* --------------------------------------------------------------------- *)
(* The keyboard-shortcut store: KeyboardShortcutHandler.ts                *)
(* --------------------------------------------------------------------- *)
Module Shortcuts.
Import JsString.

(** [ShortcutAction] (l.6-9). *)
Inductive ShortcutAction :=
| PromptAction (prompt : string)
| CodeAction (code : string)
| BothAction (prompt code : string).

(** The [type] tag of an action. *)
Inductive ActionType := PromptType | CodeType | BothType.

Definition actionType (a : ShortcutAction) : ActionType :=
  match a with
  | PromptAction _ => PromptType
  | CodeAction _ => CodeType
  | BothAction _ _ => BothType
  end.

(** [KeyboardShortcut] (l.11-18). *)
Record KeyboardShortcut := {
  sc_id : string;
  accelerator : string;
  name : string;
  description : string;
  action : ShortcutAction;
  createdAt : nat
}.

(** [LegacyKeyboardShortcut] (l.21-29). *)
Record LegacyKeyboardShortcut := {
  lg_id : string;
  lg_accelerator : string;
  lg_name : string;
  lg_description : string;
  lg_prompt : option string;
  lg_action : option ShortcutAction;
  lg_createdAt : nat
}.

(** The [Map<string, KeyboardShortcut>] field [shortcuts], as the list of
    its entries in insertion order. *)
Definition Store := list (string * KeyboardShortcut).

(** [map.get(k)] *)
Fixpoint mapGet (k : string) (st : Store) : option KeyboardShortcut :=
  match st with
  | [] => None
  | (k', v) :: rest => if String.eqb k' k then Some v else mapGet k rest
  end.

(** [map.set(k, v)]: an existing key keeps its position, a new key is
    appended. *)
Fixpoint mapSet (k : string) (v : KeyboardShortcut) (st : Store) : Store :=
  match st with
  | [] => [(k, v)]
  | (k', v') :: rest =>
      if String.eqb k' k then (k, v) :: rest else (k', v') :: mapSet k v rest
  end.

(** [map.delete(k)] *)
Definition mapDelete (k : string) (st : Store) : Store :=
  List.filter (fun p => negb (String.eqb (fst p) k)) st.

(** [Array.from(map.values())], i.e. getAllShortcuts (l.314-316). *)
Definition getAllShortcuts (st : Store) : list KeyboardShortcut := List.map snd st.

(** migrateLegacyShortcut (l.50-65). *)
Definition migrateLegacyShortcut (legacy : LegacyKeyboardShortcut) : KeyboardShortcut :=
  match lg_action legacy with
  | Some a =>
      {| sc_id := lg_id legacy; accelerator := lg_accelerator legacy;
         name := lg_name legacy; description := lg_description legacy;
         action := a; createdAt := lg_createdAt legacy |}
  | None =>
      {| sc_id := lg_id legacy; accelerator := lg_accelerator legacy;
         name := lg_name legacy; description := lg_description legacy;
         action := PromptAction (orElse (lg_prompt legacy) EmptyString);
         createdAt := lg_createdAt legacy |}
  end.

(** loadShortcuts (l.67-83) on the parsed [config.shortcuts], into the
    empty map of the constructor. *)
Definition loadShortcuts (config : list LegacyKeyboardShortcut) : Store :=
  fold_left (fun st shortcut =>
               let migrated := migrateLegacyShortcut shortcut in
               mapSet (sc_id migrated) migrated st) config [].

(** [modifierPattern] of isValidAccelerator (l.322-323), matched with the
    [i] flag: the alternatives compared after lower-casing both sides. *)
Definition modifierNames : list string :=
  ["Command"; "Cmd"; "Control"; "Ctrl"; "CommandOrControl"; "CmdOrCtrl";
   "Alt"; "Option"; "AltGr"; "Shift"; "Super"; "Meta"].

Definition charString (n : nat) : string := String (ascii_of_nat n) EmptyString.

(** [keyPattern] (l.324-325): [[0-9A-Za-z]], F1-F24, the named keys and
    the numpad keys. *)
Definition keyNames : list string :=
  List.map charString (seq 48 10 ++ seq 65 26 ++ seq 97 26)
  ++ ["F1"; "F2"; "F3"; "F4"; "F5"; "F6"; "F7"; "F8"; "F9"; "F10"; "F11";
      "F12"; "F13"; "F14"; "F15"; "F16"; "F17"; "F18"; "F19"; "F20"; "F21";
      "F22"; "F23"; "F24";
      "Plus"; "Space"; "Tab"; "Capslock"; "Numlock"; "Scrolllock";
      "Backspace"; "Delete"; "Insert"; "Return"; "Enter"; "Up"; "Down";
      "Left"; "Right"; "Home"; "End"; "PageUp"; "PageDown"; "Escape"; "Esc";
      "VolumeUp"; "VolumeDown"; "VolumeMute"; "MediaNextTrack";
      "MediaPreviousTrack"; "MediaStop"; "MediaPlayPause"; "PrintScreen";
      "num0"; "num1"; "num2"; "num3"; "num4"; "num5"; "num6"; "num7"; "num8";
      "num9"; "numdec"; "numadd"; "numsub"; "nummult"; "numdiv"].

(** [/^(alt1|alt2|...)$/i.test(s)] for alternatives made of ASCII letters
    and digits. *)
Definition testCI (alternatives : list string) (s : string) : bool :=
  existsb (fun a => String.eqb (toLowerCase a) (toLowerCase s)) alternatives.

Definition modifierPattern (s : string) : bool := testCI modifierNames s.
Definition keyPattern (s : string) : bool := testCI keyNames s.

(** isValidAccelerator (l.318-346). *)
Definition isValidAccelerator (accelerator : string) : bool :=
  let parts := split "+"%char accelerator in
  if Nat.ltb (length parts) 1 || Nat.ltb 4 (length parts) then false
  else if negb (keyPattern (List.last parts EmptyString)) then false
  else forallb modifierPattern (List.removelast parts).

(** [existing.accelerator.toLowerCase() === accelerator.toLowerCase()] *)
Definition sameAccelerator (a b : string) : bool :=
  String.eqb (toLowerCase a) (toLowerCase b).

(** The argument of addShortcut: [Omit<KeyboardShortcut, "id" | "createdAt">]. *)
Record ShortcutInput := {
  in_accelerator : string;
  in_name : string;
  in_description : string;
  in_action : ShortcutAction
}.

(** addShortcut (l.197-231). [newId] and [now] are the values of the id
    expression and of [Date.now()]; saving and registering the shortcut
    with Electron catch their own errors and leave the map alone. *)
Definition addShortcut (newId : string) (now : nat) (shortcut : ShortcutInput)
  (st : Store) : option KeyboardShortcut * Store :=
  if negb (isValidAccelerator (in_accelerator shortcut)) then (None, st)
  else if existsb (fun existing =>
                     sameAccelerator (accelerator existing) (in_accelerator shortcut))
                  (getAllShortcuts st)
  then (None, st)
  else
    let newShortcut :=
      {| sc_id := newId; accelerator := in_accelerator shortcut;
         name := in_name shortcut; description := in_description shortcut;
         action := in_action shortcut; createdAt := now |} in
    (Some newShortcut, mapSet newId newShortcut st).

(** removeShortcut (l.233-244). *)
Definition removeShortcut (id : string) (st : Store) : bool * Store :=
  match mapGet id st with
  | None => (false, st)
  | Some _ => (true, mapDelete id st)
  end.

(** removeShortcutByAccelerator (l.246-253): the first entry, in insertion
    order, whose accelerator matches. *)
Definition removeShortcutByAccelerator (accel : string) (st : Store) : bool * Store :=
  match List.find (fun p => sameAccelerator (accelerator (snd p)) accel) st with
  | Some (id, _) => removeShortcut id st
  | None => (false, st)
  end.

(** getShortcutByAccelerator (l.305-312). *)
Definition getShortcutByAccelerator (accel : string) (st : Store)
  : option KeyboardShortcut :=
  option_map snd (List.find (fun p => sameAccelerator (accelerator (snd p)) accel) st).

(** The [updates] argument of updateShortcut: the fields present in the
    object, with their values. *)
Record ShortcutUpdates := {
  up_accelerator : option string;
  up_name : option string;
  up_description : option string;
  up_action : option ShortcutAction
}.

(** [{ ...shortcut, ...updates }] *)
Definition applyUpdates (shortcut : KeyboardShortcut) (updates : ShortcutUpdates)
  : KeyboardShortcut :=
  {| sc_id := sc_id shortcut;
     accelerator := default (accelerator shortcut) (up_accelerator updates);
     name := default (name shortcut) (up_name updates);
     description := default (description shortcut) (up_description updates);
     action := default (action shortcut) (up_action updates);
     createdAt := createdAt shortcut |}.

(** The guard of l.265-282: [false] when updateShortcut returns [null]
    because of the new accelerator. *)
Definition acceleratorUpdateOk (id : string) (shortcut : KeyboardShortcut)
  (updates : ShortcutUpdates) (st : Store) : bool :=
  match up_accelerator updates with
  | Some a =>
      if truthy (Some a) && negb (String.eqb a (accelerator shortcut)) then
        if negb (isValidAccelerator a) then false
        else negb (existsb (fun p => negb (String.eqb (fst p) id)
                                     && sameAccelerator (accelerator (snd p)) a) st)
      else true
  | None => true
  end.

(** updateShortcut (l.255-299). *)
Definition updateShortcut (id : string) (updates : ShortcutUpdates) (st : Store)
  : option KeyboardShortcut * Store :=
  match mapGet id st with
  | None => (None, st)
  | Some shortcut =>
      if acceleratorUpdateOk id shortcut updates st then
        let updatedShortcut := applyUpdates shortcut updates in
        (Some updatedShortcut, mapSet id updatedShortcut st)
      else (None, st)
  end.

End Shortcuts.

(* --------------------------------------------------------------------- *)
(* The shortcut tools the model calls: tools/keyboardShortcutTools.ts     *)
(* --------------------------------------------------------------------- *)
Module ShortcutTools.
Import JsString Shortcuts.

(** [a || b] where [a] is a [string | undefined] kept only when truthy. *)
Definition truthyValue (s : option string) : option string :=
  match s with Some (String c r) => Some (String c r) | _ => None end.

(** buildAction (l.10-30); the [default] branch is unreachable, the tool
    schemas accept the three action types only. *)
Definition buildAction (actionType : ActionType) (prompt code : option string)
  : option ShortcutAction :=
  match actionType with
  | PromptType => option_map PromptAction (truthyValue prompt)
  | CodeType => option_map CodeAction (truthyValue code)
  | BothType =>
      match truthyValue prompt, truthyValue code with
      | Some p, Some c => Some (BothAction p c)
      | _, _ => None
      end
  end.

(** The [execute] of addKeyboardShortcut (l.67-105): [success] of the
    result, and the store after the call. *)
Definition addKeyboardShortcut (newId : string) (now : nat)
  (accel nm desc : string) (actionType : ActionType) (code prompt : option string)
  (st : Store) : bool * Store :=
  match buildAction actionType prompt code with
  | None => (false, st)
  | Some act =>
      match addShortcut newId now
              {| in_accelerator := accel; in_name := nm;
                 in_description := desc; in_action := act |} st with
      | (Some _, st') => (true, st')
      | (None, st') => (false, st')
      end
  end.

(** The [execute] of removeKeyboardShortcut (l.118-140). *)
Definition removeKeyboardShortcut (identifier : string) (st : Store) : bool * Store :=
  let (success, st1) := removeShortcutByAccelerator identifier st in
  if success then (true, st1)
  else
    match List.find (fun s => String.eqb (toLowerCase (name s)) (toLowerCase identifier))
                    (getAllShortcuts st1) with
    | Some shortcut => removeShortcut (sc_id shortcut) st1
    | None => (false, st1)
    end.

(** The prompt and code of an action, the empty string when it has none (l.235-242). *)
Definition actionPrompt (a : ShortcutAction) : string :=
  match a with PromptAction p | BothAction p _ => p | CodeAction _ => EmptyString end.

Definition actionCode (a : ShortcutAction) : string :=
  match a with CodeAction c | BothAction _ c => c | PromptAction _ => EmptyString end.

(** The [updates] object built by updateKeyboardShortcut (l.218-253). *)
Definition toolUpdates (shortcut : KeyboardShortcut)
  (newAccelerator newName newDescription : option string)
  (newActionType : option ActionType) (newCode newPrompt : option string)
  : ShortcutUpdates :=
  {| up_accelerator := truthyValue newAccelerator;
     up_name := truthyValue newName;
     up_description := truthyValue newDescription;
     up_action :=
       if match newActionType with Some _ => true | None => false end || truthy newCode || truthy newPrompt then
         let currentAction := action shortcut in
         let actionType := default (Shortcuts.actionType currentAction) newActionType in
         buildAction actionType
           (Some (orElse newPrompt (actionPrompt currentAction)))
           (Some (orElse newCode (actionCode currentAction)))
       else None |}.

(** The [execute] of updateKeyboardShortcut (l.195-271). *)
Definition updateKeyboardShortcut (currentIdentifier : string)
  (newAccelerator newName newDescription : option string)
  (newActionType : option ActionType) (newCode newPrompt : option string)
  (st : Store) : bool * Store :=
  match List.find (fun s => String.eqb (toLowerCase (accelerator s)) (toLowerCase currentIdentifier)
                            || String.eqb (toLowerCase (name s)) (toLowerCase currentIdentifier))
                  (getAllShortcuts st) with
  | None => (false, st)
  | Some shortcut =>
      match updateShortcut (sc_id shortcut)
              (toolUpdates shortcut newAccelerator newName newDescription
                 newActionType newCode newPrompt) st with
      | (Some _, st') => (true, st')
      | (None, st') => (false, st')
      end
  end.

End ShortcutTools.

(* --------------------------------------------------------------------- *)
(* The conversation of LLMClient.ts: sendChatMessage and its callees      *)
(* --------------------------------------------------------------------- *)
Module Chat.
Import JsString.

Inductive UserContentPart := ImagePart (image : string) | TextPart (text : string).

(** The [content] of a [ModelMessage]: a string or an array of parts. *)
Inductive MessageContent :=
| PlainText (text : string)
| ContentParts (parts : list UserContentPart).

Inductive Role := SystemRole | UserRole | AssistantRole.

Record ModelMessage := { role : Role; content : MessageContent }.

(** What [sendStreamChunk] sends on the ["chat-response"] channel. *)
Record SentChunk := {
  chunk_messageId : string;
  chunk_content : string;
  chunk_isComplete : bool
}.

(** The part of the client's state the conversation changes: [messages]
    and the chunks sent to the renderer so far. *)
Record ChatState := { messages : list ModelMessage; sent : list SentChunk }.

(** getErrorMessage (l.426-446); [OtherValue] is a thrown non-[Error]. *)
Definition getErrorMessage (error : Tools.thrown) : string :=
  match error with
  | Tools.OtherValue _ => "An unexpected error occurred. Please try again."
  | Tools.ErrorInstance message =>
      let msg := toLowerCase message in
      if includes msg "401" || includes msg "unauthorized" then
        "Authentication error: Please check your API key in the .env file."
      else if includes msg "429" || includes msg "rate limit" then
        "Rate limit exceeded. Please try again in a few moments."
      else if includes msg "network" || includes msg "fetch"
              || includes msg "econnrefused" then
        "Network error: Please check your internet connection."
      else if includes msg "timeout" then
        "Request timeout: The service took too long to respond. Please try again."
      else
        "Sorry, I encountered an error while processing your request. Please try again."
  end.

(** sendStreamChunk (l.455-461). *)
Definition sendStreamChunk (messageId content : string) (isComplete : bool)
  (st : ChatState) : ChatState :=
  {| messages := messages st;
     sent := (sent st ++ [{| chunk_messageId := messageId; chunk_content := content;
                             chunk_isComplete := isComplete |}])%list |}.

(** sendErrorMessage (l.448-453) and handleStreamError (l.421-424). *)
Definition sendErrorMessage (messageId errorMessage : string) (st : ChatState) : ChatState :=
  sendStreamChunk messageId errorMessage true st.

Definition handleStreamError (error : Tools.thrown) (messageId : string)
  (st : ChatState) : ChatState :=
  sendErrorMessage messageId (getErrorMessage error) st.

Definition assistantMessage (text : string) : ModelMessage :=
  {| role := AssistantRole; content := PlainText text |}.

(** The [for await] loop of processFullStream (l.343-413):
    [accumulatedText] and the state after the remaining [chunks]. *)
Fixpoint streamLoop (messageId : string) (messageIndex : nat)
  (accumulatedText : string) (chunks : list Steps.StreamChunk) (st : ChatState)
  : string * ChatState :=
  match chunks with
  | [] => (accumulatedText, st)
  | Steps.TextDelta textContent :: rest =>
      match textContent with
      | EmptyString => streamLoop messageId messageIndex accumulatedText rest st
      | _ =>
          let acc := accumulatedText ++ textContent in
          let st1 := {| messages := <[messageIndex := assistantMessage acc]> (messages st);
                        sent := sent st |} in
          streamLoop messageId messageIndex acc rest
            (sendStreamChunk messageId textContent false st1)
      end
  | Steps.ToolCallChunk _ :: rest | Steps.ToolResultChunk _ :: rest =>
      streamLoop messageId messageIndex accumulatedText rest
        (sendStreamChunk messageId EmptyString false st)
  | _ :: rest => streamLoop messageId messageIndex accumulatedText rest st
  end.

(** The assistant message pushed before the loop (l.339-341). *)
Definition startAssistant (st : ChatState) : ChatState :=
  {| messages := (messages st ++ [assistantMessage EmptyString])%list; sent := sent st |}.

(** processFullStream (l.334-419) on a stream that ends normally. *)
Definition processFullStream (chunks : list Steps.StreamChunk) (messageId : string)
  (st : ChatState) : ChatState :=
  let messageIndex := length (messages st) in
  let (accumulatedText, st1) :=
    streamLoop messageId messageIndex EmptyString chunks (startAssistant st) in
  sendStreamChunk messageId accumulatedText true st1.

(** How the [streamText] call of streamResponse behaves: its [fullStream]
    ends after [chunks], or rejects with [error] after yielding [chunks],
    or the call rejects before the stream is read. *)
Inductive StreamRun :=
| StreamEnds (chunks : list Steps.StreamChunk)
| StreamThrows (chunks : list Steps.StreamChunk) (error : Tools.thrown)
| CallThrows (error : Tools.thrown).

(** The user message of sendChatMessage (l.156-169). *)
Definition userMessage (screenshot : option string) (message : string) : ModelMessage :=
  let userContent :=
    (match screenshot with Some s => [ImagePart s] | None => [] end
     ++ [TextPart message])%list in
  {| role := UserRole;
     content := if Nat.eqb (length userContent) 1 then PlainText message
                else ContentParts userContent |}.

(** sendChatMessage (l.154-188). [screenshot] is what getScreenshot
    returns (it catches its own errors), [hasModel] whether [this.model]
    is set. The [chat-messages-updated] notifications are not recorded. *)
Definition sendChatMessage (screenshot : option string) (message messageId : string)
  (hasModel : bool) (run : StreamRun) (st : ChatState) : ChatState :=
  let st1 := {| messages := (messages st ++ [userMessage screenshot message])%list;
                sent := sent st |} in
  if negb hasModel then
    sendErrorMessage messageId
      "LLM service is not configured. Please add your API key to the .env file." st1
  else
    match run with
    | StreamEnds chunks => processFullStream chunks messageId st1
    | StreamThrows chunks error =>
        let messageIndex := length (messages st1) in
        let (_, st2) := streamLoop messageId messageIndex EmptyString chunks
                                   (startAssistant st1) in
        handleStreamError error messageId st2
    | CallThrows error => handleStreamError error messageId st1
    end.

(** clearMessages (l.202-205). *)
Definition clearMessages (st : ChatState) : ChatState :=
  {| messages := []; sent := sent st |}.

End Chat.

(* --------------------------------------------------------------------- *)
(* Tool bodies of browserAutomationTools.ts                               *)
(* --------------------------------------------------------------------- *)
Module Browser.
Import Tools JsString.

(** The URL normalisation of navigateToUrl (l.78-81). *)
Definition fullUrlOf (url : string) : string :=
  if negb (startsWith url "http://") && negb (startsWith url "https://")
  then "https://" ++ url else url.

(** The body of navigateToUrl (l.77-87); [loadURL u] is [Some e] when
    [tab.loadURL(u)] rejects with [e]. *)
Definition navigateToUrl (loadURL : string -> option thrown) (url : string)
  (tab : Tab) : M ToolResult :=
  let fullUrl := fullUrlOf url in
  bind (perform (LoadURL fullUrl)) (fun _ =>
    match loadURL fullUrl with
    | Some e => throw e
    | None => ret {| success := true; message := Some ("Navigated to " ++ fullUrl);
                     error := None; extra := [] |}
    end).

End Browser.

(* --------------------------------------------------------------------- *)
(* The text and image branch of autoSolveCaptcha (captchaTools.ts)        *)
(* --------------------------------------------------------------------- *)
Module CaptchaSolve.
Import JsString Captcha.

Inductive CaptchaKind := TextKind | ImageKind | RecaptchaKind | HcaptchaKind | UnknownKind.

(** The object detectCaptcha returns (l.48-54). *)
Record Detection := {
  det_found : bool;
  det_type : CaptchaKind;
  det_selector : option string;
  det_imageUrl : option string;
  det_question : option string
}.

(** What [generateText] does in solveTextCaptcha / solveImageCaptcha:
    answers with [text], or the screenshot or the call rejects. *)
Inductive ModelReply := Answered (text : string) | Failed (error : Tools.thrown).

Record Solution := {
  sol_success : bool;
  sol_answer : option string;
  sol_error : option string
}.

(** solveTextCaptcha (l.380-438); solveImageCaptcha (l.443-501) computes
    the same thing from its own prompt. *)
Definition solveTextCaptcha (reply : ModelReply) : Solution :=
  match reply with
  | Answered text =>
      {| sol_success := true; sol_answer := Some (cleanAnswer text); sol_error := None |}
  | Failed e =>
      {| sol_success := false; sol_answer := None;
         sol_error := Some (match e with
                            | Tools.ErrorInstance m => m
                            | Tools.OtherValue _ => "Unknown error"
                            end) |}
  end.

Definition solveImageCaptcha (reply : ModelReply) : Solution := solveTextCaptcha reply.

(** [answer.replace(/'/g, "\\'")] of fillCaptchaAnswer (l.517). *)
Fixpoint escapeSingleQuotes (s : list ascii) : list ascii :=
  match s with
  | [] => []
  | c :: r =>
      if Ascii.eqb c "'"%char then "\"%char :: "'"%char :: escapeSingleQuotes r
      else c :: escapeSingleQuotes r
  end.

(** The results of autoSolveCaptcha (l.539-660). *)
Inductive AutoSolveResult :=
| NoCaptchaDetected                     (* "No CAPTCHA detected on this page" *)
| GridBranch (outcome : option GridOutcome) (* the recaptcha/hcaptcha loop *)
| UnknownCaptchaType                    (* "Unknown CAPTCHA type" *)
| SolveFailed (message : string)        (* solution.error || "Failed to solve CAPTCHA" *)
| SolvedAndFilled (answer : string)     (* success, after filling *)
| SolvedNotFilled (answer : string)     (* success: false, could not fill *)
| SolvedNoSelector (answer : string).   (* success, nothing to fill *)

Definition autoSolveSuccess (r : AutoSolveResult) : bool :=
  match r with
  | GridBranch (Some (Resolved _)) | SolvedAndFilled _ | SolvedNoSelector _ => true
  | _ => false
  end.

(** autoSolveCaptcha (l.539-660): the result, and the answer
    fillCaptchaAnswer was called with, if it was. [env] is what the grid
    loop meets, [reply] what the model answers in the text and image
    branch, and [filled] what fillCaptchaAnswer returns. *)
Definition autoSolveCaptcha (detection : Detection) (env : GridEnv)
  (reply : ModelReply) (filled : bool) : AutoSolveResult * option string :=
  if negb (det_found detection) then (NoCaptchaDetected, None)
  else
    match det_type detection with
    | RecaptchaKind | HcaptchaKind => (GridBranch (autoSolveGrid env), None)
    | kind =>
      let solution :=
        match kind with
        | ImageKind => if truthy (det_imageUrl detection) && truthy (det_question detection)
                       then Some (solveImageCaptcha reply) else None
        | TextKind => if truthy (det_question detection)
                      then Some (solveTextCaptcha reply) else None
        | _ => None
        end in
      match solution with
      | None => (UnknownCaptchaType, None)
      | Some solution =>
          match sol_answer solution with
          | Some (String c r) =>
              if negb (sol_success solution) then
                (SolveFailed (orElse (sol_error solution) "Failed to solve CAPTCHA"), None)
              else if truthy (det_selector detection) then
                ((if filled then SolvedAndFilled (String c r)
                  else SolvedNotFilled (String c r)), Some (String c r))
              else (SolvedNoSelector (String c r), None)
          | _ => (SolveFailed (orElse (sol_error solution) "Failed to solve CAPTCHA"), None)
          end
      end
    end.

End CaptchaSolve.

(* ===================================================================== *)
(* Part II. Theorems                                                      *)
(* ===================================================================== *)

Module ToolsFacts.
Import Tools.

(** The result [withActiveTab] produces without a tab. *)
Definition noActiveTabResult : ToolResult :=
  {| success := false; message := None;
     error := Some "No active tab available"; extra := [] |}.

(** The failed result [withErrorHandling] builds from a thrown value. *)
Definition thrownResult (e : thrown) : ToolResult :=
  {| success := false; message := None;
     error := Some (renderThrown e); extra := [] |}.

Lemma lookup_tool_map {Args : Type} (f : string -> Args -> M ToolResult)
  (names : list string) (k : string) (v : Args -> M ToolResult) :
  (list_to_map ((fun n => (n, f n)) <$> names) : gmap string _) !! k = Some v ->
  v = f k.
Proof.
  intros H. apply elem_of_list_to_map_2 in H.
  apply list_elem_of_fmap in H as [n [Heq _]].
  by inversion Heq.
Qed.

Lemma lookup_tool_sets {Args : Type} body (context : ToolContext)
  (name : string) (exec : Args -> M ToolResult) :
  (createBrowserAutomationTools body context ∪ createCaptchaTools body context)
    !! name = Some exec ->
  exec = executeTool body context name.
Proof.
  intros H. apply lookup_union_Some_raw in H as [H | [_ H]];
    eapply lookup_tool_map; exact H.
Qed.

(** C10: every browser-automation and challenge-solving tool, run while
    [getActiveTab()] returns [null], resolves to
    [{success: false, error: "No active tab available"}], leaves the effect
    log untouched (no page or model access) and does not depend on its
    body at all. *)
Theorem no_active_tab_short_circuits {Args : Type}
  (body : string -> Args -> Tab -> M ToolResult)
  (name : string) (exec : Args -> M ToolResult) :
  (createBrowserAutomationTools body {| getActiveTab := None |}
   ∪ createCaptchaTools body {| getActiveTab := None |}) !! name = Some exec ->
  forall (args : Args) (log : list effect),
    exec args log = (inr noActiveTabResult, log)
    /\ forall body' : string -> Args -> Tab -> M ToolResult,
         exec args log = executeTool body' {| getActiveTab := None |} name args log.
Proof.
  intros H args log. apply lookup_tool_sets in H. subst exec.
  split; reflexivity.
Qed.

(** C9: the executor of a wrapped tool never rejects; when the tool body
    throws [e], the executor resolves to [{success: false, error}] with
    [error] the message of an [Error], or [String(e)] otherwise, and with
    the effects the body performed before throwing. *)
Theorem thrown_errors_become_results {Args : Type}
  (body : string -> Args -> Tab -> M ToolResult)
  (context : ToolContext) (name : string) (args : Args) (log : list effect) :
  (exists (r : ToolResult) (log' : list effect),
      executeTool body context name args log = (inr r, log'))
  /\ (forall (tab : Tab) (e : thrown) (log' : list effect),
        getActiveTab context = Some tab ->
        body name args tab log = (inl e, log') ->
        executeTool body context name args log = (inr (thrownResult e), log')).
Proof.
  unfold executeTool, withActiveTab, withErrorHandling, ret.
  split.
  - destruct (getActiveTab context) as [tab|].
    + destruct (body name args tab log) as [[e|r] log'];
        eexists; eexists; reflexivity.
    + eexists; eexists; reflexivity.
  - intros tab e log' Htab Hbody. rewrite Htab, Hbody. reflexivity.
Qed.

End ToolsFacts.

Module ToolsWitnesses.
Import Tools ToolsFacts.

Definition someTab : Tab := {| tab_url := "https://example.com"; tab_title := "Example" |}.

(** A tool body that runs a script and then throws [new Error("boom")]. *)
Definition throwingBody (name : string) (args : unit) (tab : Tab) : M ToolResult :=
  bind (perform (RunJs "document.title")) (fun _ => throw (ErrorInstance "boom")).

(** A tool body that succeeds after taking a screenshot. *)
Definition screenshotBody (name : string) (args : unit) (tab : Tab) : M ToolResult :=
  bind (perform TakeScreenshot)
       (fun _ => ret {| success := true; message := Some "Screenshot captured successfully";
                        error := None; extra := [] |}).

Lemma no_active_tab_witness :
  (createBrowserAutomationTools screenshotBody {| getActiveTab := None |}
   ∪ createCaptchaTools screenshotBody {| getActiveTab := None |}) !! "screenshot"
    = Some (executeTool screenshotBody {| getActiveTab := None |} "screenshot")
  /\ executeTool screenshotBody {| getActiveTab := None |} "screenshot" tt []
     = (inr noActiveTabResult, []).
Proof.
  split; [reflexivity |].
  apply (no_active_tab_short_circuits screenshotBody "screenshot"
           (executeTool screenshotBody {| getActiveTab := None |} "screenshot")).
  reflexivity.
Defined.

Lemma thrown_errors_witness :
  executeTool throwingBody {| getActiveTab := Some someTab |} "clickElement" tt []
  = (inr (thrownResult (ErrorInstance "boom")), [RunJs "document.title"]).
Proof.
  apply (proj2 (thrown_errors_become_results throwingBody
                  {| getActiveTab := Some someTab |} "clickElement" tt [])
           someTab (ErrorInstance "boom") [RunJs "document.title"]);
  reflexivity.
Defined.

End ToolsWitnesses.

Module RegistryFacts.
Import Registry.

Lemma spread_lookup {V} (a b : gmap string V) (x : string) :
  objectSpread a b !! x = match b !! x with Some d => Some d | None => a !! x end.
Proof.
  unfold objectSpread. rewrite lookup_union.
  destruct (b !! x), (a !! x); reflexivity.
Qed.

Lemma assign_lookup {V} (target source : gmap string V) (x : string) :
  objectAssign target source !! x
  = match source !! x with Some d => Some d | None => target !! x end.
Proof.
  unfold objectAssign. rewrite lookup_union.
  destruct (source !! x), (target !! x); reflexivity.
Qed.

Lemma toolsFrom_origin (o : origin) (names : list string) (x : string)
  (d : ToolDescriptor) :
  toolsFrom o names !! x = Some d -> td_origin d = o.
Proof.
  unfold toolsFrom. intros H. apply elem_of_list_to_map_2 in H.
  apply list_elem_of_fmap in H as [n [Heq _]].
  inversion Heq. reflexivity.
Qed.

(** The MCP tool set after streamResponse refreshed it. *)
Definition mcpAfter (allServerTools : list (string * ToolSet))
  (st : LLMClientTools) : ToolSet :=
  mcpTools (initializeMCPTools allServerTools st).

Lemma turnNamespace_lookup (allServerTools : list (string * ToolSet))
  (st : LLMClientTools) (x : string) :
  turnNamespace allServerTools st !! x =
    match mcpAfter allServerTools st !! x with
    | Some d => Some d
    | None =>
        match createBrowserAutomationTools !! x with
        | Some d => Some d
        | None => createKeyboardShortcutTools !! x
        end
    end.
Proof.
  unfold turnNamespace, allTools, mcpAfter. cbn [builtInTools mcpTools initializeMCPTools initializeBuiltInTools].
  rewrite spread_lookup, spread_lookup. reflexivity.
Qed.

(** C3: merging two tool sets, by object spread ([{...a, ...b}], used for
    the built-in and the combined tool sets) or by [Object.assign] (used
    for the tool sets of successive MCP servers), resolves a name defined
    by the later set to the later set's descriptor, and a name defined
    only by the earlier set to the earlier set's descriptor. *)
Theorem merge_last_write_wins {V} (earlier later : gmap string V) (x : string) :
  objectSpread earlier later !! x
    = match later !! x with Some d => Some d | None => earlier !! x end
  /\ objectAssign earlier later !! x
    = match later !! x with Some d => Some d | None => earlier !! x end.
Proof. split; [apply spread_lookup | apply assign_lookup]. Qed.

(** C2 (amended): the namespace handed to the model resolves a name first
    among the MCP tools, then among the browser-automation tools, then
    among the keyboard-shortcut tools: keyboard-shortcut tools are merged
    first, browser-automation tools second, discovered MCP tools last,
    later ones silently overwriting earlier ones. The challenge-solving
    tools are not merged: each of their names resolves to whatever the MCP
    tools hold under it. *)
Theorem turn_namespace_merge_order (allServerTools : list (string * ToolSet))
  (st : LLMClientTools) (x : string) :
  turnNamespace allServerTools st !! x =
    match mcpAfter allServerTools st !! x with
    | Some d => Some d
    | None =>
        match createBrowserAutomationTools !! x with
        | Some d => Some d
        | None => createKeyboardShortcutTools !! x
        end
    end
  /\ Forall (fun n => turnNamespace allServerTools st !! n
                      = mcpAfter allServerTools st !! n)
            Tools.captchaToolNames.
Proof.
  split; [apply turnNamespace_lookup |].
  unfold Tools.captchaToolNames.
  repeat constructor; rewrite turnNamespace_lookup;
    destruct (mcpAfter allServerTools st !! _); reflexivity.
Qed.

(** C2 (counterexample): with no MCP server and a fresh client, no name of
    the namespace handed to the model resolves to a challenge-solving
    tool, so the four origins are not all present. *)
Lemma challenge_tools_not_merged :
  ~ exists (n : string) (d : ToolDescriptor),
      turnNamespace [] {| builtInTools := ∅; mcpTools := ∅ |} !! n = Some d
      /\ td_origin d = ChallengeOrigin.
Proof.
  intros [n [d [Hl Ho]]]. rewrite turnNamespace_lookup in Hl.
  unfold mcpAfter, initializeMCPTools in Hl. cbn [foldl mcpTools] in Hl.
  rewrite lookup_empty in Hl.
  destruct (createBrowserAutomationTools !! n) as [d'|] eqn:Hb.
  - injection Hl as <-. apply toolsFrom_origin in Hb. congruence.
  - apply toolsFrom_origin in Hl. congruence.
Qed.

End RegistryFacts.

Module PromptFacts.
Import Prompt.

Lemma str_append_assoc (a b c : string) : (a ++ b) ++ c = a ++ (b ++ c).
Proof. induction a as [|x a IH]; [reflexivity | exact (f_equal (String x) IH)]. Qed.

Lemma str_append_empty_r (a : string) : a ++ EmptyString = a.
Proof. induction a as [|x a IH]; [reflexivity | exact (f_equal (String x) IH)]. Qed.

Lemma substring_prefix_length (n : nat) (s : string) :
  n <= String.length s ->
  String.length (substring 0 n s) = n /\ String.prefix (substring 0 n s) s = true.
Proof.
  revert n. induction s as [|c s IH]; intros n Hn.
  - simpl in Hn. assert (n = 0) as -> by lia. split; reflexivity.
  - destruct n as [|n]; [split; reflexivity |].
    simpl in Hn. destruct (IH n ltac:(lia)) as [Hl Hp].
    simpl. split; [by rewrite Hl |].
    destruct (ascii_dec c c); [exact Hp | contradiction].
Qed.

(** [parts.join(sep)] contains each part as a factor. *)
Lemma concat_factor (sep p : string) (parts : list string) :
  In p parts -> exists pre post, String.concat sep parts = pre ++ p ++ post.
Proof.
  induction parts as [|a l IH]; [intros [] |].
  intros [-> | Hin].
  - destruct l as [|b l].
    + exists EmptyString, EmptyString. simpl. by rewrite str_append_empty_r.
    + exists EmptyString, (sep ++ String.concat sep (b :: l)). reflexivity.
  - destruct (IH Hin) as [pre [post Heq]].
    destruct l as [|b l]; [destruct Hin |].
    exists (a ++ sep ++ pre), post.
    change (String.concat sep (a :: b :: l))
      with (a ++ sep ++ String.concat sep (b :: l)).
    rewrite Heq. rewrite !str_append_assoc. reflexivity.
Qed.

Lemma str_append_cancel_l (a b c : string) : a ++ b = a ++ c -> b = c.
Proof.
  induction a as [|x a IH]; [done |].
  intros H. apply IH. change (String x (a ++ b) = String x (a ++ c)) in H.
  by injection H.
Qed.

(** No fixed part of the prompt is a URL line or a page-content section:
    the fixed lines do not start with a newline, and the first closing line
    starts with a newline followed by ["Please"]. *)
Lemma fixed_parts_not_url (u : string) :
  ~ In (urlPart u) (preamble ++ closing)%list.
Proof.
  unfold urlPart, nl. simpl. intros H.
  repeat (destruct H as [H|H]; [discriminate H |]). exact H.
Qed.

Lemma fixed_parts_not_page_text (t : string) :
  ~ In (pageTextPart t) (preamble ++ closing)%list.
Proof.
  unfold pageTextPart, nl. simpl. intros H.
  repeat (destruct H as [H|H]; [discriminate H |]). exact H.
Qed.

Lemma parts_in (x : string) (url pageText : option string) :
  In x (systemPromptParts url pageText) <->
  In x (preamble ++ closing)%list
  \/ (exists c s, url = Some (String c s) /\ x = urlPart (String c s))
  \/ (exists c s, pageText = Some (String c s) /\ x = pageTextPart (String c s)).
Proof.
  unfold systemPromptParts. rewrite !in_app_iff.
  destruct url as [[|cu su]|], pageText as [[|ct st]|]; cbn [In]; split; intros H.
  all: repeat match goal with
         | H : _ \/ _ |- _ => destruct H as [H|H]
         | H : False |- _ => destruct H
         | H : exists _, _ |- _ => destruct H as [? H]
         | H : _ /\ _ |- _ => destruct H as [? ->]
         | H : Some _ = Some _ |- _ => injection H as <- <-
         | H : _ = Some _ |- _ => discriminate H
         end; eauto 7.
Qed.

Lemma url_part_eq (u v : string) : urlPart u = urlPart v -> u = v.
Proof. unfold urlPart. intros H. by apply str_append_cancel_l, str_append_cancel_l in H. Qed.

Lemma url_part_not_page_text (u t : string) : urlPart u <> pageTextPart t.
Proof. unfold urlPart, pageTextPart, nl. discriminate. Qed.

(** C4 (amended): [buildSystemPrompt] is total (it returns the newline-join
    of its parts). For non-empty page text [t] the prompt contains the
    section ["\nPage content (text):\n"] followed by [t] unchanged when [t]
    has at most 4000 characters, and by the first 4000 characters of [t]
    followed by ["..."] otherwise; null or empty page text gives no such
    section. The line ["\nCurrent page URL: " ++ u] is emitted exactly when
    the URL is a non-empty string [u]: a null and an empty URL both omit
    it. *)
Theorem system_prompt_sections (url pageText : option string) :
  (forall t : string, pageText = Some t -> t <> EmptyString ->
     exists pre post : string,
       buildSystemPrompt url pageText
       = pre ++ nl ++ "Page content (text):" ++ nl
         ++ (if Nat.leb (String.length t) MAX_CONTEXT_LENGTH then t
             else substring 0 MAX_CONTEXT_LENGTH t ++ "...") ++ post)
  /\ (forall t : string, MAX_CONTEXT_LENGTH < String.length t ->
        String.length (substring 0 MAX_CONTEXT_LENGTH t) = MAX_CONTEXT_LENGTH
        /\ String.prefix (substring 0 MAX_CONTEXT_LENGTH t) t = true)
  /\ ((pageText = None \/ pageText = Some EmptyString) ->
        forall s : string, ~ In (pageTextPart s) (systemPromptParts url pageText))
  /\ (forall u : string,
        In (urlPart u) (systemPromptParts url pageText)
        <-> url = Some u /\ u <> EmptyString).
Proof.
  split; [| split; [| split]].
  - intros t -> Hne.
    assert (Hin : In (pageTextPart t) (systemPromptParts url (Some t))).
    { apply parts_in. right; right. destruct t as [|c s]; [done |]. eauto. }
    destruct (concat_factor nl _ _ Hin) as [pre [post Heq]].
    exists pre, post. unfold buildSystemPrompt. rewrite Heq.
    unfold pageTextPart, truncateText. rewrite !str_append_assoc. reflexivity.
  - intros t Hlt. apply substring_prefix_length. lia.
  - intros Hpt s Hin. apply parts_in in Hin as [H | [H | H]].
    + by apply (fixed_parts_not_page_text s).
    + destruct H as (c & s' & _ & Heq). symmetry in Heq.
      by apply (url_part_not_page_text (String c s') s).
    + destruct H as (c & s' & Hc & _). destruct Hpt as [-> | ->]; discriminate.
  - intros u. rewrite parts_in. split.
    + intros [H | [H | H]].
      * by apply fixed_parts_not_url in H.
      * destruct H as (c & s & -> & Heq). apply url_part_eq in Heq as ->.
        split; [reflexivity | discriminate].
      * destruct H as (c & s & _ & Heq). by apply url_part_not_page_text in Heq.
    + intros [-> Hne]. right; left. destruct u as [|c s]; [done |]. eauto.
Qed.

(** C4 (counterexample): an empty URL is omitted exactly as a missing one,
    so the URL line is not present whenever a URL is supplied. *)
Lemma empty_url_gives_no_url_line :
  buildSystemPrompt (Some EmptyString) None = buildSystemPrompt None None
  /\ ~ In (urlPart EmptyString) (systemPromptParts (Some EmptyString) None).
Proof.
  split; [reflexivity |].
  change (systemPromptParts (Some EmptyString) None) with (preamble ++ closing)%list.
  apply fixed_parts_not_url.
Qed.

End PromptFacts.

Module PromptWitnesses.
Import Prompt PromptFacts.

(** A page text of 4001 characters. *)
Definition longPageText : string := string_of_list_ascii (repeat "a"%char 4001).

Lemma system_prompt_sections_witness :
  (exists pre post : string,
     buildSystemPrompt (Some "https://example.com") (Some longPageText)
     = pre ++ nl ++ "Page content (text):" ++ nl
       ++ substring 0 MAX_CONTEXT_LENGTH longPageText ++ "..." ++ post)
  /\ String.length (substring 0 MAX_CONTEXT_LENGTH longPageText) = MAX_CONTEXT_LENGTH
  /\ ~ In (pageTextPart "x") (systemPromptParts (Some "https://example.com") None)
  /\ In (urlPart "https://example.com")
        (systemPromptParts (Some "https://example.com") (Some longPageText)).
Proof.
  split; [| split; [| split]].
  - destruct (proj1 (system_prompt_sections (Some "https://example.com")
                       (Some longPageText)) longPageText eq_refl ltac:(discriminate))
      as [pre [post Heq]].
    exists pre, post. rewrite Heq. reflexivity.
  - refine (proj1 (proj1 (proj2 (system_prompt_sections None None)) longPageText _)).
    apply Nat.ltb_lt. vm_compute. reflexivity.
  - apply (proj1 (proj2 (proj2 (system_prompt_sections (Some "https://example.com") None)))).
    left; reflexivity.
  - apply (proj2 (proj2 (proj2 (system_prompt_sections (Some "https://example.com")
                                 (Some longPageText)))) "https://example.com").
    split; [reflexivity | discriminate].
Defined.

End PromptWitnesses.

Module ActivityFacts.
Import Activity.
Local Open Scope list_scope.

Lemma findIndex_miss {A} (p : A -> bool) (l : list A) :
  Forall (fun x => p x = false) l -> findIndex p l = (-1)%Z.
Proof. induction 1 as [|x l Hx _ IH]; simpl; [done | by rewrite Hx, IH]. Qed.

Lemma findIndex_hit {A} (p : A -> bool) (l1 : list A) (a : A) (l2 : list A) :
  Forall (fun x => p x = false) l1 -> p a = true ->
  findIndex p (l1 ++ a :: l2) = Z.of_nat (length l1).
Proof.
  intros Hl1 Ha. induction Hl1 as [|x l1 Hx _ IH]; simpl; [by rewrite Ha |].
  rewrite Hx, IH. destruct (Z.eqb_spec (Z.of_nat (length l1)) (-1)); lia.
Qed.

(** C6: a tool result marks complete exactly the newest entry that has
    the same tool name and is still "calling" (all other entries stay as
    they are), and leaves the list unchanged when there is no such entry.
    For the sequence calling(toolA), calling(toolA), then the result of
    toolA, it is the second entry that is completed. *)
Theorem tool_result_marks_newest_calling (toolName : string) (result : option string) :
  (forall (older : list ToolActivity) (a : ToolActivity) (newer : list ToolActivity),
     pendingFor toolName a = true ->
     Forall (fun b => pendingFor toolName b = false) newer ->
     onToolResult toolName result (older ++ a :: newer)
     = older ++ markComplete result a :: newer)
  /\ (forall prev : list ToolActivity,
        Forall (fun b => pendingFor toolName b = false) prev ->
        onToolResult toolName result prev = prev)
  /\ onToolResult toolName result
       (onToolCall "tool-2" toolName None 2 (onToolCall "tool-1" toolName None 1 []))
     = [{| act_id := "tool-1"; act_toolName := toolName; act_status := Calling;
           act_args := None; act_result := None; act_timestamp := 1 |};
        {| act_id := "tool-2"; act_toolName := toolName; act_status := Complete;
           act_args := None; act_result := result; act_timestamp := 2 |}].
Proof.
  assert (Hmain : forall older a newer,
     pendingFor toolName a = true ->
     Forall (fun b => pendingFor toolName b = false) newer ->
     onToolResult toolName result (older ++ a :: newer)
     = older ++ markComplete result a :: newer).
  { intros older a newer Ha Hnewer. unfold onToolResult.
    rewrite rev_app_distr. simpl rev. rewrite <- app_assoc. simpl app.
    rewrite (findIndex_hit _ (rev newer) a (rev older)); [| by apply Forall_rev | done].
    rewrite length_rev.
    destruct (Z.eqb_spec (Z.of_nat (length newer)) (-1)); [lia |].
    rewrite length_app. simpl length.
    replace (Z.to_nat (Z.of_nat (length older + S (length newer)) - 1
                       - Z.of_nat (length newer)))
      with (length older) by lia.
    rewrite list_lookup_middle by reflexivity.
    rewrite <- (Nat.add_0_r (length older)) at 1. rewrite insert_app_r.
    reflexivity. }
  split; [exact Hmain | split].
  - intros prev Hprev. unfold onToolResult.
    rewrite findIndex_miss; [reflexivity | by apply Forall_rev].
  - unfold onToolCall. simpl app.
    match goal with
    | |- onToolResult _ _ [?e1; ?e2] = _ =>
        assert (He2 : pendingFor toolName e2 = true)
          by (unfold pendingFor; simpl; by rewrite String.eqb_refl);
        exact (Hmain [e1] e2 [] He2 (Forall_nil_2 _))
    end.
Qed.

Lemma tool_result_marks_newest_calling_witness :
  onToolResult "clickElement" (Some "ok")
    ([{| act_id := "tool-1"; act_toolName := "clickElement"; act_status := Calling;
         act_args := None; act_result := None; act_timestamp := 1 |}]
     ++ {| act_id := "tool-2"; act_toolName := "clickElement"; act_status := Calling;
           act_args := None; act_result := None; act_timestamp := 2 |}
     :: [{| act_id := "tool-3"; act_toolName := "typeText"; act_status := Calling;
            act_args := None; act_result := None; act_timestamp := 3 |}])
  = [{| act_id := "tool-1"; act_toolName := "clickElement"; act_status := Calling;
        act_args := None; act_result := None; act_timestamp := 1 |}]
    ++ markComplete (Some "ok")
         {| act_id := "tool-2"; act_toolName := "clickElement"; act_status := Calling;
            act_args := None; act_result := None; act_timestamp := 2 |}
    :: [{| act_id := "tool-3"; act_toolName := "typeText"; act_status := Calling;
           act_args := None; act_result := None; act_timestamp := 3 |}].
Proof.
  apply (proj1 (tool_result_marks_newest_calling "clickElement" (Some "ok"))).
  - reflexivity.
  - repeat constructor.
Defined.

End ActivityFacts.

Module CaptchaFacts.
Import Captcha.
Local Open Scope list_scope.

(* ---- answer clean-up ---- *)

Lemma firstLine_no_newline (s : list ascii) : ~ In (ascii_of_nat 10) (firstLine s).
Proof.
  induction s as [|c s IH]; simpl; [tauto |].
  destruct (Nat.eqb_spec (nat_of_ascii c) 10) as [Hc | Hc]; [simpl; tauto |].
  intros [Heq | Hin]; [| exact (IH Hin)].
  apply Hc. rewrite Heq. reflexivity.
Qed.

(** C7 (amended): the cleaned answer keeps only ASCII letters, digits and
    whitespace characters, and holds no line feed (it comes from the first
    line of the trimmed model text). *)
Theorem cleaned_answer_charset (text : string) :
  Forall (fun c => (isAsciiAlnum c || isJsWhitespace c) = true)
         (list_ascii_of_string (cleanAnswer text))
  /\ ~ In (ascii_of_nat 10) (list_ascii_of_string (cleanAnswer text)).
Proof.
  unfold cleanAnswer, removeSpecialChars.
  rewrite list_ascii_of_string_of_list_ascii. split.
  - apply List.Forall_forall. intros c Hc. apply filter_In in Hc. tauto.
  - intros Hin. apply filter_In in Hin as [Hin _].
    exact (firstLine_no_newline _ Hin).
Qed.

(** C7 (counterexample): a model answer with an inner space keeps it, so
    the stored answer is not purely alphanumeric. *)
Lemma cleaned_answer_keeps_inner_space :
  cleanAnswer "  ab cd!  " = "ab cd"
  /\ ~ Forall (fun c => isAsciiAlnum c = true) (list_ascii_of_string (cleanAnswer "  ab cd!  ")).
Proof.
  split; [reflexivity |].
  intros H. rewrite List.Forall_forall in H.
  assert (Hsp : In " "%char (list_ascii_of_string (cleanAnswer "  ab cd!  "))).
  { vm_compute. right; right; left; reflexivity. }
  specialize (H _ Hsp). vm_compute in H. discriminate H.
Qed.

(* ---- clicks on the grid ---- *)

Lemma clickNext_spec (cells : nat) (indices : list Z) :
  clickNext cells indices
  = map (fun i => ClickCell (Z.to_nat (i - 1)))
        (List.filter (fun i => (1 <=? i)%Z && (i <=? Z.of_nat cells)%Z) indices).
Proof.
  induction indices as [|i rest IH]; [reflexivity |].
  simpl. rewrite IH.
  replace ((0 <=? i - 1)%Z && (i - 1 <? Z.of_nat cells)%Z)
    with ((1 <=? i)%Z && (i <=? Z.of_nat cells)%Z).
  - destruct ((1 <=? i)%Z && (i <=? Z.of_nat cells)%Z); reflexivity.
  - destruct (Z.leb_spec 1 i), (Z.leb_spec i (Z.of_nat cells)),
      (Z.leb_spec 0 (i - 1)), (Z.ltb_spec (i - 1) (Z.of_nat cells));
      simpl; reflexivity || lia.
Qed.

(** C8: the click script maps each 1-based index [i] to the 0-based cell
    [i - 1], clicks exactly the indices with [0 <= i - 1 < cells.length],
    in order, skips the others without stopping, then clicks the verify
    button (when present) and resolves to [true]. Without a challenge frame
    or without cells it clicks nothing and resolves to [false]. *)
Theorem click_script_skips_out_of_range (page : GridPage) (indices : list Z) :
  clickScript page indices =
    if frameFound page && negb (Nat.eqb (cellCount page) 0) then
      (map (fun i => ClickCell (Z.to_nat (i - 1)))
           (List.filter (fun i => (0 <=? i - 1)%Z && (i - 1 <? Z.of_nat (cellCount page))%Z)
                        indices)
       ++ (if verifyButton page then [ClickVerify] else []), true)
    else ([], false).
Proof.
  unfold clickScript. rewrite clickNext_spec.
  replace (List.filter (fun i => (0 <=? i - 1)%Z && (i - 1 <? Z.of_nat (cellCount page))%Z) indices)
    with (List.filter (fun i => (1 <=? i)%Z && (i <=? Z.of_nat (cellCount page))%Z) indices).
  - destruct (frameFound page), (Nat.eqb (cellCount page) 0); reflexivity.
  - apply filter_ext. intros i.
    destruct (Z.leb_spec 1 i), (Z.leb_spec i (Z.of_nat (cellCount page))),
      (Z.leb_spec 0 (i - 1)), (Z.ltb_spec (i - 1) (Z.of_nat (cellCount page)));
      simpl; reflexivity || lia.
Qed.

(* ---- the interactive-grid loop ---- *)

(** The loop returns by round 21 whatever the page and the model answer,
    and any fuel from 21 rounds on gives the same result. *)
Lemma gridLoop_fuel (env : GridEnv) (d k fuel fuel' : nat) :
  k + d = 20 -> d < fuel -> d < fuel' ->
  gridLoop env fuel k = gridLoop env fuel' k /\ gridLoop env fuel k <> None.
Proof.
  revert k fuel fuel'. induction d as [|d IH]; intros k fuel fuel' Hk Hf Hf';
    (destruct fuel as [|fuel]; [lia |]); (destruct fuel' as [|fuel']; [lia |]);
    simpl; (destruct (env_present env k); simpl; [| split; [reflexivity | discriminate]]);
    (destruct (visualSuccess _); simpl; [| split; [reflexivity | discriminate]]).
  - replace (Nat.ltb 20 (S k)) with true by (symmetry; apply Nat.ltb_lt; lia).
    split; [reflexivity | discriminate].
  - replace (Nat.ltb 20 (S k)) with false by (symmetry; apply Nat.ltb_ge; lia).
    apply IH; lia.
Qed.

Lemma autoSolveGrid_returns (env : GridEnv) (fuel : nat) :
  21 <= fuel -> gridLoop env fuel 0 = autoSolveGrid env /\ autoSolveGrid env <> None.
Proof.
  intros Hf. unfold autoSolveGrid.
  destruct (gridLoop_fuel env 20 0 fuel 21 eq_refl ltac:(lia) ltac:(lia)) as [H1 _].
  destruct (gridLoop_fuel env 20 0 21 21 eq_refl ltac:(lia) ltac:(lia)) as [_ H2].
  split; assumption.
Qed.

Lemma round_succeeds (a : RecaptchaAnalysis) (page : option GridPage) :
  ra_selectedImages a <> [] -> clickCaptchaImages page (ra_selectedImages a) = true ->
  visualSuccess (solveVisualCaptcha (Some a) page) = true.
Proof.
  intros Hne Hclick. unfold solveVisualCaptcha.
  destruct (ra_selectedImages a) as [|i rest]; [done |].
  by rewrite Hclick.
Qed.

Lemma gridLoop_stuck (env : GridEnv) :
  (forall n, env_present env n = true) ->
  (forall n, 1 <= n -> visualSuccess (solveVisualCaptcha (env_analysis env n) (env_page env n)) = true) ->
  forall d k fuel, k + d = 20 -> d < fuel -> gridLoop env fuel k = Some (Exhausted 21).
Proof.
  intros Hp Hs d. induction d as [|d IH]; intros k fuel Hk Hf;
    (destruct fuel as [|fuel]; [lia |]); simpl;
    rewrite Hp; simpl; rewrite (Hs (S k)) by lia; simpl.
  - replace (Nat.ltb 20 (S k)) with true by (symmetry; apply Nat.ltb_lt; lia).
    by replace (S k) with 21 by lia.
  - replace (Nat.ltb 20 (S k)) with false by (symmetry; apply Nat.ltb_ge; lia).
    apply IH; lia.
Qed.

(** C1 (amended): when every presence check reports the challenge as still
    present and every round's judgment selects a non-empty set of cells
    whose clicks succeed, the grid loop ends with the exhausted outcome at
    iteration 21: the check [iteration > 20] follows the increment, so the
    loop runs 21 model rounds, neither fewer nor more. *)
Theorem grid_loop_exhausted_at_21 (env : GridEnv) :
  (forall n, env_present env n = true) ->
  (forall n, 1 <= n ->
     exists a, env_analysis env n = Some a /\ ra_selectedImages a <> []
               /\ clickCaptchaImages (env_page env n) (ra_selectedImages a) = true) ->
  forall fuel, 21 <= fuel -> gridLoop env fuel 0 = Some (Exhausted 21).
Proof.
  intros Hp Hs fuel Hf.
  apply (gridLoop_stuck env Hp) with (d := 20); [| lia | lia].
  intros n Hn. destruct (Hs n Hn) as (a & Ha & Hne & Hclick).
  rewrite Ha. by apply round_succeeds.
Qed.

(** A page whose challenge never goes away, with a model that always picks
    cells 1 and 5 of a 3x3 grid. *)
Definition stuckEnv : GridEnv := {|
  env_present := fun _ => true;
  env_analysis := fun _ => Some {| ra_prompt := "Select all images with buses";
                                   ra_gridSize := 9; ra_selectedImages := [1; 5]%Z |};
  env_page := fun _ => Some {| frameFound := true; cellCount := 9; verifyButton := true |}
|}.

(** C1 (counterexample): on that page the loop is exhausted at iteration
    21, not 20. *)
Lemma grid_loop_not_exhausted_at_20 :
  autoSolveGrid stuckEnv = Some (Exhausted 21)
  /\ autoSolveGrid stuckEnv <> Some (Exhausted 20).
Proof. split; [vm_compute; reflexivity | vm_compute; congruence]. Qed.

Lemma grid_loop_exhausted_at_21_witness :
  gridLoop stuckEnv 21 0 = Some (Exhausted 21).
Proof.
  apply (grid_loop_exhausted_at_21 stuckEnv).
  - intros n; reflexivity.
  - intros n _. eexists; split; [reflexivity | split; [discriminate | reflexivity]].
  - lia.
Defined.

End CaptchaFacts.

Module StepsFacts.
Import Steps.
Local Open Scope list_scope.

Lemma run_length_bound (generate : list StepResult -> StepResult)
  (steps final : list StepResult) :
  streamTextRun generate streamResponseStopWhen steps final ->
  length steps < 10 -> length steps < length final <= 10.
Proof.
  induction 1 as [steps _ | steps final Hcont _ IH]; intros Hlt.
  - rewrite length_app. simpl. lia.
  - unfold continueAfter, streamResponseStopWhen, stepCountIs in Hcont.
    apply andb_prop in Hcont as [_ Hstop]. apply negb_true_iff in Hstop.
    apply Nat.eqb_neq in Hstop. rewrite length_app in Hstop, IH. simpl in Hstop, IH.
    assert (H := IH ltac:(lia)). lia.
Qed.

Lemma run_exists (generate : list StepResult -> StepResult) (d : nat) :
  forall steps : list StepResult, length steps + d = 9 ->
  exists final, streamTextRun generate streamResponseStopWhen steps final.
Proof.
  induction d as [|d IH]; intros steps Hd;
    destruct (continueAfter streamResponseStopWhen (generate steps)
                (steps ++ [generate steps])) eqn:Hc;
    try (eexists; apply run_last; exact Hc).
  - unfold continueAfter, streamResponseStopWhen, stepCountIs in Hc.
    rewrite length_app in Hc. simpl in Hc.
    replace (length steps + 1) with 10 in Hc by lia. simpl in Hc.
    rewrite andb_false_r in Hc. discriminate.
  - destruct (IH (steps ++ [generate steps])) as [final Hrun].
    { rewrite length_app. simpl. lia. }
    exists final. by apply run_more.
Qed.

Definition textOf (c : StreamChunk) : list string :=
  match c with TextDelta t => [t] | _ => [] end.

Lemma concat_empty_cons (a : string) (l : list string) :
  String.concat EmptyString (a :: l) = (a ++ String.concat EmptyString l)%string.
Proof.
  destruct l as [|b l]; [| reflexivity].
  simpl. symmetry. apply PromptFacts.str_append_empty_r.
Qed.

Lemma accumulateText_concat (acc : string) (chunks : list StreamChunk) :
  accumulateText acc chunks
  = (acc ++ String.concat EmptyString (List.flat_map textOf chunks))%string.
Proof.
  revert acc. induction chunks as [|c rest IH]; intros acc.
  - simpl. symmetry. apply PromptFacts.str_append_empty_r.
  - destruct c as [t| | | | | |]; cbn [accumulateText List.flat_map textOf app]; try apply IH.
    rewrite concat_empty_cons. destruct t as [|x t]; rewrite IH.
    + reflexivity.
    + by rewrite PromptFacts.str_append_assoc.
Qed.

Lemma flat_map_fullStream (steps : list StepResult) :
  List.flat_map textOf (fullStream steps)
  = List.flat_map (fun r => List.flat_map textOf (stepChunks r)) steps.
Proof.
  unfold fullStream. induction steps as [|r steps IH]; [reflexivity |].
  simpl. rewrite List.flat_map_app, IH. reflexivity.
Qed.

(** C5: for any behaviour of the model, the step loop streamResponse runs
    with [stopWhen: stepCountIs(10)] terminates (a run exists), every run
    makes between 1 and 10 steps, and the content of the final
    [isComplete] chunk is the concatenation of all text deltas of all
    steps, whether the loop stopped by itself or at the 10-step ceiling. *)
Theorem step_loop_bounded (generate : list StepResult -> StepResult) :
  (exists final, streamTextRun generate streamResponseStopWhen [] final)
  /\ (forall final : list StepResult,
        streamTextRun generate streamResponseStopWhen [] final ->
        1 <= length final <= 10
        /\ processFullStream (fullStream final) = stepsText final).
Proof.
  split.
  - apply (run_exists generate 9 []). reflexivity.
  - intros final Hrun. split.
    + pose proof (run_length_bound generate [] final Hrun ltac:(simpl; lia)). simpl in *. lia.
    + unfold processFullStream, stepsText.
      rewrite accumulateText_concat, flat_map_fullStream. reflexivity.
Qed.

(** A model that, at every step, writes one word and calls [clickElement],
    which succeeds, and [navigateToUrl], which throws. *)
Definition alwaysCallsTool (steps : list StepResult) : StepResult :=
  {| stepChunks := [TextDelta "ok "; ToolCallChunk "clickElement";
                    ToolResultChunk "clickElement"; ToolCallChunk "navigateToUrl";
                    ToolErrorChunk "navigateToUrl"; FinishChunk] |}.

Lemma step_loop_bounded_witness :
  streamTextRun alwaysCallsTool streamResponseStopWhen [] (repeat (alwaysCallsTool []) 10)
  /\ processFullStream (fullStream (repeat (alwaysCallsTool []) 10))
     = stepsText (repeat (alwaysCallsTool []) 10).
Proof.
  assert (Hrun : streamTextRun alwaysCallsTool streamResponseStopWhen []
                   (repeat (alwaysCallsTool []) 10)).
  { do 9 (apply run_more; [reflexivity |]). apply run_last. reflexivity. }
  split; [exact Hrun |].
  exact (proj2 (proj2 (step_loop_bounded alwaysCallsTool) _ Hrun)).
Defined.

End StepsFacts.

Module JsStringFacts.
Import JsString.

Lemma lowerChar_idem (c : ascii) : lowerChar (lowerChar c) = lowerChar c.
Proof.
  destruct c as [[] [] [] [] [] [] [] []]; vm_compute; reflexivity.
Qed.


Lemma toLowerCase_idem (s : string) : toLowerCase (toLowerCase s) = toLowerCase s.
Proof.
  induction s as [|c s IH]; simpl; [reflexivity|].
  rewrite lowerChar_idem, IH; reflexivity.
Qed.


Lemma prefix_app (p s : string) : String.prefix p (p ++ s) = true.
Proof.
  induction p as [|c p IH]; simpl.
  - destruct s; reflexivity.
  - destruct (ascii_dec c c); [exact IH|congruence].
Qed.

Lemma truthy_orElse (s : option string) (b : string) :
  truthy s = false -> orElse s b = b.
Proof. destruct s as [[|c r]|]; simpl; congruence. Qed.

End JsStringFacts.

Module ShortcutsFacts.
Import JsString JsStringFacts Shortcuts.
Local Open Scope list_scope.

(** The invariants the public API of the handler keeps: map keys and
    accelerators (compared case-insensitively) are unique, and every
    accelerator passes isValidAccelerator. *)
Definition lowAcc (p : string * KeyboardShortcut) : string :=
  toLowerCase (accelerator (snd p)).

Definition keysUnique (st : Store) : Prop := List.NoDup (List.map fst st).

Definition acceleratorsUnique (st : Store) : Prop := List.NoDup (List.map lowAcc st).

Definition acceleratorsValid (st : Store) : Prop :=
  List.Forall (fun p => isValidAccelerator (accelerator (snd p)) = true) st.

Definition storeInvariant (st : Store) : Prop :=
  keysUnique st /\ acceleratorsUnique st /\ acceleratorsValid st.

(* ---- accelerator syntax ---- *)




Lemma modifier_not_key (s : string) : modifierPattern s = true -> keyPattern s = false.
Proof.
  unfold modifierPattern, keyPattern, testCI.
  intros Hm. apply existsb_exists in Hm as [m [Hin Heq]].
  apply String.eqb_eq in Heq. rewrite <- Heq.
  simpl in Hin.
  repeat (destruct Hin as [<-|Hin]; [vm_compute; reflexivity|]).
  destruct Hin.
Qed.

(* ---- the map ---- *)

Lemma mapGet_in (k : string) (v : KeyboardShortcut) (st : Store) :
  mapGet k st = Some v -> In (k, v) st.
Proof.
  induction st as [|[k' v'] st IH]; simpl; [discriminate|].
  destruct (String.eqb_spec k' k) as [->|_]; [intros [= ->]; left; reflexivity|].
  intros H; right; exact (IH H).
Qed.

Lemma mapGet_middle (k : string) (v : KeyboardShortcut) (l1 l2 : Store) :
  ~ In k (List.map fst l1) -> mapGet k (l1 ++ (k, v) :: l2) = Some v.
Proof.
  induction l1 as [|[k' v'] l1 IH]; simpl.
  - rewrite String.eqb_refl; reflexivity.
  - intros Hn. destruct (String.eqb_spec k' k) as [->|_]; [tauto|].
    apply IH; tauto.
Qed.

Lemma mapGet_mapSet (k k' : string) (v : KeyboardShortcut) (st : Store) :
  mapGet k (mapSet k' v st) = if String.eqb k' k then Some v else mapGet k st.
Proof.
  induction st as [|[k0 v0] st IH]; simpl.
  - destruct (String.eqb k' k); reflexivity.
  - destruct (String.eqb_spec k0 k') as [->|Hne]; simpl.
    + destruct (String.eqb k' k); reflexivity.
    + rewrite IH. destruct (String.eqb_spec k0 k) as [->|]; [|reflexivity].
      destruct (String.eqb_spec k' k) as [->|]; [congruence|reflexivity].
Qed.

Lemma mapSet_cases (k : string) (v : KeyboardShortcut) (st : Store) :
  (~ In k (List.map fst st) /\ mapSet k v st = st ++ [(k, v)])
  \/ (exists l1 v0 l2, st = l1 ++ (k, v0) :: l2 /\ ~ In k (List.map fst l1)
                       /\ mapSet k v st = l1 ++ (k, v) :: l2).
Proof.
  induction st as [|[k' v'] st IH]; simpl.
  - left; split; [tauto|reflexivity].
  - destruct (String.eqb_spec k' k) as [->|Hne].
    + right. exists [], v', st. simpl. split; [reflexivity|split; [tauto|reflexivity]].
    + destruct IH as [[Hn ->]|(l1 & v0 & l2 & -> & Hn & ->)].
      * left. split; [|reflexivity]. intros [H|H]; [congruence|tauto].
      * right. exists ((k', v') :: l1), v0, l2. simpl.
        split; [reflexivity|split; [|reflexivity]]. intros [H|H]; [congruence|tauto].
Qed.

Lemma map_middle {B} (f : string * KeyboardShortcut -> B) (l1 l2 : Store) p :
  List.map f (l1 ++ p :: l2) = List.map f l1 ++ f p :: List.map f l2.
Proof. rewrite List.map_app; reflexivity. Qed.

Lemma nodup_replace {B} (l1 l2 : list B) (a b : B) :
  List.NoDup (l1 ++ a :: l2) -> ~ In b (l1 ++ l2) -> List.NoDup (l1 ++ b :: l2).
Proof.
  intros Hd Hb. apply NoDup_remove in Hd as [Hd _].
  apply (proj2 (NoDup_Add (Add_app b l1 l2))). tauto.
Qed.

Lemma nodup_snoc {B} (l : list B) (b : B) :
  List.NoDup l -> ~ In b l -> List.NoDup (l ++ [b]).
Proof.
  intros Hd Hb. pose proof (Add_app b l []) as HA. rewrite List.app_nil_r in HA.
  apply (proj2 (NoDup_Add HA)). tauto.
Qed.

Lemma keysUnique_mapSet (k : string) (v : KeyboardShortcut) (st : Store) :
  keysUnique st -> keysUnique (mapSet k v st).
Proof.
  unfold keysUnique. intros Hd.
  destruct (mapSet_cases k v st) as [[Hn ->]|(l1 & v0 & l2 & -> & Hn & ->)].
  - rewrite List.map_app. apply nodup_snoc; assumption.
  - rewrite map_middle in *. exact Hd.
Qed.

(** Setting key [k] to [v] keeps the invariant when [v]'s accelerator is
    valid and clashes with no entry of another key. *)
Lemma storeInvariant_mapSet (k : string) (v : KeyboardShortcut) (st : Store) :
  storeInvariant st ->
  isValidAccelerator (accelerator v) = true ->
  (forall p, In p st -> fst p <> k -> lowAcc p <> lowAcc (k, v)) ->
  storeInvariant (mapSet k v st).
Proof.
  intros (Hk & Ha & Hv) Hvalid Hclash.
  split; [apply keysUnique_mapSet; exact Hk|].
  unfold keysUnique, acceleratorsUnique, acceleratorsValid in *.
  destruct (mapSet_cases k v st) as [[Hn ->]|(l1 & v0 & l2 & -> & Hn & ->)].
  - split.
    + rewrite List.map_app. apply nodup_snoc; [exact Ha|].
      intros Hin. apply List.in_map_iff in Hin as [p [Hp Hin]].
      refine (Hclash p Hin _ Hp).
      intros <-. apply Hn, List.in_map; exact Hin.
    + apply List.Forall_app; split; [exact Hv|]. constructor; [exact Hvalid|constructor].
  - rewrite map_middle in Hk. apply NoDup_remove in Hk as [_ Hk2].
    rewrite <- List.map_app in Hk2.
    split.
    + rewrite map_middle in *. apply (nodup_replace _ _ (lowAcc (k, v0))); [exact Ha|].
      rewrite <- List.map_app. intros Hin.
      apply List.in_map_iff in Hin as [p [Hp Hin]].
      refine (Hclash p _ _ Hp).
      * apply List.in_app_or in Hin as [H|H]; apply List.in_or_app; [left|right; right]; exact H.
      * intros <-. apply Hk2; simpl; exact (List.in_map fst _ p Hin).
    + apply List.Forall_app in Hv as [Hv1 Hv2]. inversion Hv2; subst.
      apply List.Forall_app; split; [exact Hv1|constructor; assumption].
Qed.

Lemma invariant_split (k : string) (v0 : KeyboardShortcut) (l1 l2 : Store) :
  storeInvariant (l1 ++ (k, v0) :: l2) ->
  isValidAccelerator (accelerator v0) = true
  /\ (forall p, In p (l1 ++ l2) -> fst p <> k /\ lowAcc p <> lowAcc (k, v0)).
Proof.
  intros (Hk & Ha & Hv). unfold keysUnique, acceleratorsUnique, acceleratorsValid in *.
  split.
  - apply List.Forall_forall with (x := (k, v0)) in Hv; [exact Hv|].
    apply List.in_or_app; right; left; reflexivity.
  - intros p Hin. rewrite map_middle in Hk, Ha.
    apply NoDup_remove in Hk as [_ Hk]. apply NoDup_remove in Ha as [_ Ha].
    rewrite <- List.map_app in Hk, Ha. split.
    + intros <-. apply Hk; simpl; exact (List.in_map fst _ p Hin).
    + intros He. apply Ha. rewrite <- He. apply List.in_map; exact Hin.
Qed.

Lemma mapGet_split (k : string) (v : KeyboardShortcut) (st : Store) :
  keysUnique st -> mapGet k st = Some v ->
  exists l1 l2, st = l1 ++ (k, v) :: l2 /\ ~ In k (List.map fst l1).
Proof.
  intros Hk Hg.
  destruct (mapSet_cases k v st) as [[Hn _]|(l1 & v0 & l2 & -> & Hn & _)].
  - exfalso. apply Hn. apply mapGet_in in Hg. apply List.in_map_iff.
    exists (k, v); split; [reflexivity|exact Hg].
  - rewrite mapGet_middle in Hg by exact Hn. injection Hg as ->.
    exists l1, l2; split; [reflexivity|exact Hn].
Qed.

(* ---- the API calls ---- *)

Lemma addShortcut_preserves (newId : string) (now : nat) (input : ShortcutInput)
  (st : Store) :
  storeInvariant st -> storeInvariant (snd (addShortcut newId now input st)).
Proof.
  intros Hinv. unfold addShortcut.
  destruct (isValidAccelerator (in_accelerator input)) eqn:Hval; simpl; [|exact Hinv].
  destruct (existsb _ _) eqn:Hex; simpl; [exact Hinv|].
  apply storeInvariant_mapSet; [exact Hinv|exact Hval|].
  intros p Hin _ Heq. unfold lowAcc in Heq; simpl in Heq.
  apply Bool.not_true_iff_false in Hex. apply Hex, List.existsb_exists.
  exists (snd p); split; [apply List.in_map; exact Hin|].
  unfold sameAccelerator. rewrite Heq. apply String.eqb_refl.
Qed.

Lemma updateShortcut_preserves (id : string) (updates : ShortcutUpdates) (st : Store) :
  storeInvariant st -> up_accelerator updates <> Some EmptyString ->
  storeInvariant (snd (updateShortcut id updates st)).
Proof.
  intros Hinv Hne. unfold updateShortcut.
  destruct (mapGet id st) as [sc|] eqn:Hg; [|exact Hinv].
  destruct (acceleratorUpdateOk id sc updates st) eqn:Hok; simpl; [|exact Hinv].
  destruct (mapGet_split id sc st (proj1 Hinv) Hg) as (l1 & l2 & Hst & Hn).
  pose proof Hinv as Hinv'. rewrite Hst in Hinv'.
  destruct (invariant_split _ _ _ _ Hinv') as [Hvsc Hothers].
  apply storeInvariant_mapSet; [exact Hinv|..].
  - unfold acceleratorUpdateOk in Hok. unfold applyUpdates; simpl.
    destruct (up_accelerator updates) as [a|]; simpl; [|exact Hvsc].
    destruct a as [|c r]; [congruence|]. cbn [truthy andb] in Hok.
    destruct (String.eqb (String c r) (accelerator sc)) eqn:Heqb; cbn [negb] in Hok.
    + apply String.eqb_eq in Heqb. rewrite Heqb; exact Hvsc.
    + destruct (isValidAccelerator (String c r)); cbn [negb] in Hok; [reflexivity|discriminate].
  - intros p Hin Hkey. rewrite Hst in Hin.
    assert (Hin' : In p (l1 ++ l2)).
    { apply List.in_app_or in Hin as [H|[H|H]]; apply List.in_or_app;
        [left; exact H| |right; exact H].
      subst p; simpl in Hkey; congruence. }
    unfold acceleratorUpdateOk in Hok. unfold lowAcc, applyUpdates; simpl.
    destruct (up_accelerator updates) as [a|] eqn:Hua; simpl;
      [|exact (proj2 (Hothers p Hin'))].
    destruct a as [|c r]; [congruence|]. cbn [truthy andb] in Hok.
    destruct (String.eqb (String c r) (accelerator sc)) eqn:Heqb; cbn [negb] in Hok.
    { apply String.eqb_eq in Heqb. rewrite Heqb; exact (proj2 (Hothers p Hin')). }
    destruct (isValidAccelerator (String c r)); cbn [negb] in Hok; [|discriminate].
    apply Bool.negb_true_iff in Hok. intros Heq.
    apply Bool.not_true_iff_false in Hok. apply Hok, List.existsb_exists.
    exists p; split; [rewrite Hst; exact Hin|].
    apply andb_true_intro; split.
    + apply Bool.negb_true_iff, String.eqb_neq; exact Hkey.
    + unfold sameAccelerator. rewrite Heq. apply String.eqb_refl.
Qed.

Lemma find_split {A} (f : A -> bool) (l : list A) (x : A) :
  List.find f l = Some x ->
  exists l1 l2, l = l1 ++ x :: l2 /\ f x = true /\ (forall y, In y l1 -> f y = false).
Proof.
  induction l as [|y l IH]; simpl; [discriminate|].
  destruct (f y) eqn:Hy.
  - intros [= ->]. exists [], l; simpl; repeat split; [exact Hy|tauto].
  - intros H. destruct (IH H) as (l1 & l2 & -> & Hx & Hl1).
    exists (y :: l1), l2; simpl; repeat split; [exact Hx|].
    intros z [<-|Hz]; [exact Hy|exact (Hl1 z Hz)].
Qed.

Lemma find_none_intro {A} (f : A -> bool) (l : list A) :
  (forall y, In y l -> f y = false) -> List.find f l = None.
Proof.
  induction l as [|y l IH]; simpl; [reflexivity|].
  intros H. rewrite (H y (or_introl eq_refl)). apply IH. intros z Hz; exact (H z (or_intror Hz)).
Qed.

Lemma filter_keep_all {A} (f : A -> bool) (l : list A) :
  (forall y, In y l -> f y = true) -> List.filter f l = l.
Proof.
  induction l as [|y l IH]; simpl; [reflexivity|].
  intros H. rewrite (H y (or_introl eq_refl)), IH; [reflexivity|].
  intros z Hz; exact (H z (or_intror Hz)).
Qed.

(** removeShortcutByAccelerator on a store whose keys and accelerators
    are unique. *)
Lemma removeByAccelerator_spec (accel : string) (st : Store) :
  keysUnique st -> acceleratorsUnique st ->
  let (removed, st') := removeShortcutByAccelerator accel st in
  removed = match getShortcutByAccelerator accel st with Some _ => true | None => false end
  /\ getShortcutByAccelerator accel st' = None
  /\ (forall p, In p st -> sameAccelerator (accelerator (snd p)) accel = false -> In p st').
Proof.
  intros Hk Ha. unfold keysUnique, acceleratorsUnique in Hk, Ha.
  unfold removeShortcutByAccelerator, getShortcutByAccelerator.
  destruct (List.find _ st) as [[id sc]|] eqn:Hf; simpl.
  2: { repeat split; [rewrite Hf; reflexivity|tauto]. }
  destruct (find_split _ _ _ Hf) as (l1 & l2 & Hst & Hx & Hl1).
  simpl in Hx.
  unfold removeShortcut.
  assert (Hn : ~ In id (List.map fst l1)).
  { rewrite Hst, map_middle in Hk. intros Hin. apply NoDup_remove_2 in Hk.
    apply Hk; rewrite <- List.map_app; apply List.in_map_iff in Hin as [q [Hq Hin]].
    apply List.in_map_iff; exists q; split; [exact Hq|apply List.in_or_app; left; exact Hin]. }
  rewrite Hst, (mapGet_middle id sc l1 l2 Hn); simpl.
  assert (Hdel : mapDelete id (l1 ++ (id, sc) :: l2) = l1 ++ l2).
  { rewrite Hst, map_middle in Hk. apply NoDup_remove_2 in Hk. rewrite <- List.map_app in Hk.
    unfold mapDelete. rewrite List.filter_app. simpl. rewrite String.eqb_refl; simpl.
    rewrite <- List.filter_app. apply filter_keep_all.
    intros y Hy. apply Bool.negb_true_iff, String.eqb_neq. intros He.
    apply Hk. simpl. rewrite <- He. exact (List.in_map fst _ y Hy). }
  rewrite Hdel. repeat split.
  - rewrite find_none_intro; [reflexivity|].
    intros y Hy. destruct (sameAccelerator (accelerator (snd y)) accel) eqn:Hs; [|reflexivity].
    exfalso. rewrite Hst, map_middle in Ha. apply NoDup_remove_2 in Ha.
    rewrite <- List.map_app in Ha. apply Ha.
    unfold sameAccelerator in Hs, Hx. apply String.eqb_eq in Hs, Hx.
    replace (lowAcc (id, sc)) with (lowAcc y) by (unfold lowAcc; simpl; congruence).
    apply List.in_map; exact Hy.
  - intros p Hp Hs.
    apply List.in_app_or in Hp as [H|[H|H]]; apply List.in_or_app; [left; exact H| |right; exact H].
    subst p. simpl in Hs. congruence.
Qed.

Lemma find_app {A} (f : A -> bool) (l1 l2 : list A) :
  List.find f (l1 ++ l2) = match List.find f l1 with Some x => Some x | None => List.find f l2 end.
Proof.
  induction l1 as [|y l1 IH]; simpl; [reflexivity|].
  destruct (f y); [reflexivity|exact IH].
Qed.

Lemma loadShortcuts_fold (config : list LegacyKeyboardShortcut) (st : Store) (k : string) :
  mapGet k (fold_left (fun st shortcut =>
                         let migrated := migrateLegacyShortcut shortcut in
                         mapSet (sc_id migrated) migrated st) config st)
  = match List.find (fun l => String.eqb (lg_id l) k) (rev config) with
    | Some l => Some (migrateLegacyShortcut l)
    | None => mapGet k st
    end.
Proof.
  revert st. induction config as [|l config IH]; intros st; simpl; [reflexivity|].
  rewrite IH, find_app. simpl.
  destruct (List.find _ (rev config)); [reflexivity|].
  rewrite mapGet_mapSet.
  assert (Hid : sc_id (migrateLegacyShortcut l) = lg_id l)
    by (unfold migrateLegacyShortcut; destruct (lg_action l); reflexivity).
  rewrite Hid. destruct (String.eqb (lg_id l) k); reflexivity.
Qed.

Lemma keysUnique_fold (config : list LegacyKeyboardShortcut) (st : Store) :
  keysUnique st ->
  keysUnique (fold_left (fun st shortcut =>
                           let migrated := migrateLegacyShortcut shortcut in
                           mapSet (sc_id migrated) migrated st) config st).
Proof.
  revert st. induction config as [|l config IH]; intros st Hk; simpl; [exact Hk|].
  apply IH, keysUnique_mapSet; exact Hk.
Qed.

End ShortcutsFacts.

Module ShortcutToolsFacts.
Import JsString JsStringFacts Shortcuts ShortcutsFacts ShortcutTools.
Local Open Scope list_scope.

Lemma truthyValue_not_empty (s : option string) : truthyValue s <> Some EmptyString.
Proof. destruct s as [[|c r]|]; simpl; congruence. Qed.

(** Every action buildAction returns has the requested type and non-empty
    fields. *)
Definition actionFieldsFilled (a : ShortcutAction) : bool :=
  match a with
  | PromptAction p => truthy (Some p)
  | CodeAction c => truthy (Some c)
  | BothAction p c => truthy (Some p) && truthy (Some c)
  end.

Lemma buildAction_some (t : ActionType) (prompt code : option string) (a : ShortcutAction) :
  buildAction t prompt code = Some a ->
  Shortcuts.actionType a = t /\ actionFieldsFilled a = true.
Proof.
  destruct t; simpl;
    destruct prompt as [[|cp rp]|], code as [[|cc rc]|]; simpl;
    intros H; inversion H; subst; split; reflexivity.
Qed.

Lemma nodup_map_filter {A B} (f : A -> B) (g : A -> bool) (l : list A) :
  List.NoDup (List.map f l) -> List.NoDup (List.map f (List.filter g l)).
Proof.
  induction l as [|x l IH]; simpl; [intros; constructor|].
  intros Hd. inversion Hd as [|? ? Hn Hd']; subst.
  destruct (g x); simpl; [|exact (IH Hd')].
  constructor; [|exact (IH Hd')].
  intros Hin. apply Hn. apply List.in_map_iff in Hin as [y [Hy Hin]].
  apply List.filter_In in Hin as [Hin _]. rewrite <- Hy. apply List.in_map; exact Hin.
Qed.

Lemma storeInvariant_mapDelete (k : string) (st : Store) :
  storeInvariant st -> storeInvariant (mapDelete k st).
Proof.
  intros (Hk & Ha & Hv). unfold mapDelete. split; [|split].
  - apply nodup_map_filter; exact Hk.
  - apply nodup_map_filter; exact Ha.
  - apply List.Forall_forall. intros p Hp. apply List.filter_In in Hp as [Hp _].
    exact (proj1 (List.Forall_forall _ _) Hv p Hp).
Qed.

Lemma removeShortcut_preserves (id : string) (st : Store) :
  storeInvariant st -> storeInvariant (snd (removeShortcut id st)).
Proof.
  intros H. unfold removeShortcut. destruct (mapGet id st); simpl;
    [apply storeInvariant_mapDelete|]; exact H.
Qed.

Lemma removeByAccelerator_preserves (accel : string) (st : Store) :
  storeInvariant st -> storeInvariant (snd (removeShortcutByAccelerator accel st)).
Proof.
  intros H. unfold removeShortcutByAccelerator. destruct (List.find _ st) as [[id sc]|];
    [apply removeShortcut_preserves|]; exact H.
Qed.

End ShortcutToolsFacts.

Module ShortcutExtras.
Import JsString JsStringFacts Shortcuts ShortcutsFacts ShortcutTools ShortcutToolsFacts.
Local Open Scope list_scope.



(** An accelerator whose last [+]-separated part is a modifier is
    rejected: no modifier name is also a key name, so modifiers alone
    ("Shift", "Ctrl+Shift") never pass. *)
Theorem trailing_modifier_rejected (a : string) :
  modifierPattern (List.last (split "+"%char a) EmptyString) = true ->
  isValidAccelerator a = false.
Proof.
  intros Hm. unfold isValidAccelerator.
  rewrite (modifier_not_key _ Hm).
  destruct (Nat.ltb _ _ || Nat.ltb _ _); reflexivity.
Qed.

Lemma trailing_modifier_rejected_witness :
  modifierPattern (List.last (split "+"%char "Ctrl+Shift") EmptyString) = true
  /\ isValidAccelerator "Ctrl+Shift" = false.
Proof.
  split; [vm_compute; reflexivity|].
  apply trailing_modifier_rejected. vm_compute; reflexivity.
Defined.

(** addShortcut keeps the store invariant: keys unique, accelerators
    unique up to case, every accelerator valid. *)
Theorem add_keeps_store_invariant (newId : string) (now : nat) (input : ShortcutInput)
  (st : Store) :
  storeInvariant st -> storeInvariant (snd (addShortcut newId now input st)).
Proof. apply addShortcut_preserves. Qed.

Definition sampleInput : ShortcutInput :=
  {| in_accelerator := "CmdOrCtrl+Shift+1"; in_name := "Summarize";
     in_description := "Summarize the page"; in_action := PromptAction "Summarize" |}.

Lemma add_keeps_store_invariant_witness :
  storeInvariant [] /\ storeInvariant (snd (addShortcut "shortcut-1" 0 sampleInput [])).
Proof.
  assert (H0 : storeInvariant []) by (split; [constructor|split; constructor]).
  split; [exact H0|]. apply add_keeps_store_invariant. exact H0.
Defined.

(** updateShortcut keeps the store invariant, as long as the update does
    not carry the empty string as its accelerator. *)
Theorem update_keeps_store_invariant (id : string) (updates : ShortcutUpdates) (st : Store) :
  storeInvariant st -> up_accelerator updates <> Some EmptyString ->
  storeInvariant (snd (updateShortcut id updates st)).
Proof. apply updateShortcut_preserves. Qed.

Definition sampleShortcut : KeyboardShortcut :=
  {| sc_id := "shortcut-1"; accelerator := "Alt+S"; name := "Search";
     description := "Search the page"; action := CodeAction "find()"; createdAt := 0 |}.

Definition sampleUpdates : ShortcutUpdates :=
  {| up_accelerator := Some "Alt+T"; up_name := None; up_description := None;
     up_action := None |}.

Lemma update_keeps_store_invariant_witness :
  storeInvariant [("shortcut-1", sampleShortcut)]
  /\ storeInvariant (snd (updateShortcut "shortcut-1" sampleUpdates
                                         [("shortcut-1", sampleShortcut)])).
Proof.
  assert (H0 : storeInvariant [("shortcut-1", sampleShortcut)]).
  { split; [repeat constructor; simpl; tauto|split; [repeat constructor; simpl; tauto|]].
    repeat constructor. }
  split; [exact H0|]. apply update_keeps_store_invariant; [exact H0|discriminate].
Defined.

Definition emptyAcceleratorUpdate : ShortcutUpdates :=
  {| up_accelerator := Some EmptyString; up_name := None; up_description := None;
     up_action := None |}.

(** The empty accelerator is falsy, so updateShortcut skips the
    validation and the duplicate check and stores it: the update succeeds
    and the store no longer has only valid accelerators. *)
Theorem empty_accelerator_update_unchecked (id : string) (sc : KeyboardShortcut) (st : Store) :
  mapGet id st = Some sc ->
  exists sc' st',
    updateShortcut id emptyAcceleratorUpdate st = (Some sc', st')
    /\ accelerator sc' = EmptyString /\ mapGet id st' = Some sc'
    /\ ~ acceleratorsValid st'.
Proof.
  intros Hg. unfold updateShortcut. rewrite Hg.
  unfold acceleratorUpdateOk; simpl.
  eexists _, _; split; [reflexivity|]. split; [reflexivity|].
  split; [rewrite mapGet_mapSet, String.eqb_refl; reflexivity|].
  intros Hv. unfold acceleratorsValid in Hv.
  rewrite List.Forall_forall in Hv.
  specialize (Hv (id, applyUpdates sc emptyAcceleratorUpdate)).
  assert (Hin : In (id, applyUpdates sc emptyAcceleratorUpdate)
                   (mapSet id (applyUpdates sc emptyAcceleratorUpdate) st)).
  { apply mapGet_in. rewrite mapGet_mapSet, String.eqb_refl; reflexivity. }
  specialize (Hv Hin). vm_compute in Hv. discriminate.
Qed.

Lemma empty_accelerator_update_unchecked_witness :
  mapGet "shortcut-1" [("shortcut-1", sampleShortcut)] = Some sampleShortcut
  /\ exists sc' st',
       updateShortcut "shortcut-1" emptyAcceleratorUpdate [("shortcut-1", sampleShortcut)]
       = (Some sc', st')
       /\ accelerator sc' = EmptyString /\ mapGet "shortcut-1" st' = Some sc'
       /\ ~ acceleratorsValid st'.
Proof.
  split; [reflexivity|]. apply (empty_accelerator_update_unchecked _ sampleShortcut). reflexivity.
Defined.

(** On a store with unique keys and accelerators, removeShortcutByAccelerator
    reports whether a shortcut matched, leaves none with that accelerator
    (any case), and keeps every shortcut with another accelerator. *)
Theorem remove_by_accelerator_clears (accel : string) (st : Store) :
  keysUnique st -> acceleratorsUnique st ->
  fst (removeShortcutByAccelerator accel st)
    = match getShortcutByAccelerator accel st with Some _ => true | None => false end
  /\ getShortcutByAccelerator accel (snd (removeShortcutByAccelerator accel st)) = None
  /\ (forall p, In p st -> sameAccelerator (accelerator (snd p)) accel = false ->
                In p (snd (removeShortcutByAccelerator accel st))).
Proof.
  intros Hk Ha. pose proof (removeByAccelerator_spec accel st Hk Ha) as H.
  destruct (removeShortcutByAccelerator accel st) as [removed st']; exact H.
Qed.

Definition twoShortcuts : Store :=
  [("shortcut-1", sampleShortcut);
   ("shortcut-2", {| sc_id := "shortcut-2"; accelerator := "CmdOrCtrl+Shift+1";
                     name := "Alt+S"; description := "Summarize";
                     action := PromptAction "Summarize"; createdAt := 1 |})].

Lemma remove_by_accelerator_clears_witness :
  keysUnique twoShortcuts /\ acceleratorsUnique twoShortcuts
  /\ getShortcutByAccelerator "alt+s"
       (snd (removeShortcutByAccelerator "alt+s" twoShortcuts)) = None.
Proof.
  assert (Hk : keysUnique twoShortcuts).
  { unfold keysUnique; simpl. repeat constructor; simpl; intuition discriminate. }
  assert (Ha : acceleratorsUnique twoShortcuts).
  { unfold acceleratorsUnique; vm_compute. repeat constructor; simpl; intuition discriminate. }
  split; [exact Hk|split; [exact Ha|]].
  exact (proj1 (proj2 (remove_by_accelerator_clears "alt+s" twoShortcuts Hk Ha))).
Defined.

(** loadShortcuts: every id maps to the migrated form of the last config
    entry with that id (later entries overwrite earlier ones), and the map
    has no duplicate key. *)
Theorem load_last_entry_wins (config : list LegacyKeyboardShortcut) (k : string) :
  mapGet k (loadShortcuts config)
    = option_map migrateLegacyShortcut
        (List.find (fun l => String.eqb (lg_id l) k) (rev config))
  /\ keysUnique (loadShortcuts config).
Proof.
  split.
  - unfold loadShortcuts. rewrite loadShortcuts_fold.
    destruct (List.find _ _); reflexivity.
  - apply keysUnique_fold. constructor.
Qed.

(** The three shortcut tools that change the store keep its invariant:
    updateKeyboardShortcut only passes truthy accelerators on. *)
Theorem shortcut_tools_keep_store_invariant (st : Store) :
  storeInvariant st ->
  (forall newId now accel nm desc t code prompt,
      storeInvariant (snd (addKeyboardShortcut newId now accel nm desc t code prompt st)))
  /\ (forall identifier, storeInvariant (snd (removeKeyboardShortcut identifier st)))
  /\ (forall cur na nn nd nt nc np,
        storeInvariant (snd (updateKeyboardShortcut cur na nn nd nt nc np st))).
Proof.
  intros Hinv. split; [|split].
  - intros. unfold addKeyboardShortcut.
    destruct (buildAction t prompt code) as [act|]; [|exact Hinv].
    pose proof (addShortcut_preserves newId now
                  {| in_accelerator := accel; in_name := nm;
                     in_description := desc; in_action := act |} st Hinv) as H.
    destruct (addShortcut _ _ _ _) as [[?|] st']; exact H.
  - intros. unfold removeKeyboardShortcut.
    pose proof (removeByAccelerator_preserves identifier st Hinv) as H.
    destruct (removeShortcutByAccelerator identifier st) as [[|] st1]; [exact H|].
    destruct (List.find _ _) as [sc|]; [|exact H].
    apply removeShortcut_preserves; exact H.
  - intros. unfold updateKeyboardShortcut.
    destruct (List.find _ _) as [sc|]; [|exact Hinv].
    pose proof (updateShortcut_preserves (sc_id sc)
                  (toolUpdates sc na nn nd nt nc np) st Hinv
                  (truthyValue_not_empty na)) as H.
    destruct (updateShortcut _ _ _) as [[?|] st']; exact H.
Qed.

Lemma shortcut_tools_keep_store_invariant_witness :
  storeInvariant twoShortcuts
  /\ storeInvariant (snd (updateKeyboardShortcut "alt+s" (Some "Alt+T") None None
                                                 None None None twoShortcuts)).
Proof.
  assert (H0 : storeInvariant twoShortcuts).
  { split; [|split].
    - unfold keysUnique; simpl. repeat constructor; simpl; intuition discriminate.
    - unfold acceleratorsUnique; vm_compute. repeat constructor; simpl; intuition discriminate.
    - unfold acceleratorsValid. repeat constructor. }
  split; [exact H0|].
  exact (proj2 (proj2 (shortcut_tools_keep_store_invariant twoShortcuts H0))
           "alt+s" (Some "Alt+T") None None None None None).
Defined.

(** updateKeyboardShortcut with a new action type whose field is missing:
    buildAction returns [null], the action is left as it was, and the
    tool still reports success. Here: a prompt shortcut switched to
    "code" without a truthy [newCode]. *)
Theorem incomplete_action_change_ignored (cur : string) (sc : KeyboardShortcut) (p : string)
  (newName newDescription newCode newPrompt : option string) (st : Store) :
  List.find (fun s => String.eqb (toLowerCase (accelerator s)) (toLowerCase cur)
                      || String.eqb (toLowerCase (name s)) (toLowerCase cur))
            (getAllShortcuts st) = Some sc ->
  mapGet (sc_id sc) st = Some sc ->
  action sc = PromptAction p ->
  truthy newCode = false ->
  exists st' sc',
    updateKeyboardShortcut cur None newName newDescription (Some CodeType) newCode newPrompt st
    = (true, st')
    /\ mapGet (sc_id sc) st' = Some sc' /\ action sc' = PromptAction p.
Proof.
  intros Hf Hg Ha Hc. unfold updateKeyboardShortcut. rewrite Hf.
  unfold updateShortcut. rewrite Hg.
  unfold acceleratorUpdateOk, toolUpdates; simpl.
  rewrite Ha; simpl. rewrite (truthy_orElse _ _ Hc). simpl.
  eexists _, _; split; [reflexivity|].
  split; [rewrite mapGet_mapSet, String.eqb_refl; reflexivity|].
  simpl. exact Ha.
Qed.

Definition promptShortcut : KeyboardShortcut :=
  {| sc_id := "shortcut-3"; accelerator := "Alt+P"; name := "Explain";
     description := "Explain the page"; action := PromptAction "Explain this page";
     createdAt := 2 |}.

Lemma incomplete_action_change_ignored_witness :
  exists st' sc',
    updateKeyboardShortcut "explain" None None None (Some CodeType) None None
      [("shortcut-3", promptShortcut)] = (true, st')
    /\ mapGet "shortcut-3" st' = Some sc' /\ action sc' = PromptAction "Explain this page".
Proof.
  apply (incomplete_action_change_ignored "explain" promptShortcut "Explain this page");
    reflexivity.
Defined.

(** A shortcut added through addKeyboardShortcut carries an action of the
    requested type whose prompt and code (as the type requires) are
    non-empty. *)
Theorem add_tool_action_complete (newId : string) (now : nat) (accel nm desc : string)
  (t : ActionType) (code prompt : option string) (st st' : Store) :
  addKeyboardShortcut newId now accel nm desc t code prompt st = (true, st') ->
  exists sc, mapGet newId st' = Some sc /\ accelerator sc = accel
             /\ Shortcuts.actionType (action sc) = t /\ actionFieldsFilled (action sc) = true.
Proof.
  unfold addKeyboardShortcut.
  destruct (buildAction t prompt code) as [act|] eqn:Hb; [|discriminate].
  destruct (buildAction_some _ _ _ _ Hb) as [Ht Hf].
  unfold addShortcut; simpl.
  destruct (isValidAccelerator accel); simpl; [|discriminate].
  destruct (existsb _ _); simpl; [discriminate|].
  intros [= <-]. eexists; split; [rewrite mapGet_mapSet, String.eqb_refl; reflexivity|].
  simpl. split; [reflexivity|]. split; assumption.
Qed.

Lemma add_tool_action_complete_witness :
  exists sc, mapGet "shortcut-9" (snd (addKeyboardShortcut "shortcut-9" 5 "Alt+B" "Both"
                                        "Run and ask" BothType (Some "scroll()") (Some "Why?") []))
             = Some sc /\ accelerator sc = "Alt+B"
             /\ Shortcuts.actionType (action sc) = BothType
             /\ actionFieldsFilled (action sc) = true.
Proof.
  apply (add_tool_action_complete "shortcut-9" 5 "Alt+B" "Both" "Run and ask" BothType
           (Some "scroll()") (Some "Why?") []).
  reflexivity.
Defined.

(** removeKeyboardShortcut tries the accelerator first: on a store with
    unique keys and accelerators, when some shortcut has the identifier as
    its accelerator, that one is removed and every shortcut with another
    accelerator stays, even one whose name is the identifier. *)
Theorem remove_tool_prefers_accelerator (identifier : string) (s : KeyboardShortcut)
  (st : Store) :
  keysUnique st -> acceleratorsUnique st ->
  getShortcutByAccelerator identifier st = Some s ->
  fst (removeKeyboardShortcut identifier st) = true
  /\ getShortcutByAccelerator identifier (snd (removeKeyboardShortcut identifier st)) = None
  /\ (forall p, In p st -> sameAccelerator (accelerator (snd p)) identifier = false ->
                In p (snd (removeKeyboardShortcut identifier st))).
Proof.
  intros Hk Ha Hs. pose proof (removeByAccelerator_spec identifier st Hk Ha) as H.
  unfold removeKeyboardShortcut.
  destruct (removeShortcutByAccelerator identifier st) as [removed st'].
  rewrite Hs in H. destruct H as (-> & H2 & H3). simpl. tauto.
Qed.

Lemma remove_tool_prefers_accelerator_witness :
  fst (removeKeyboardShortcut "Alt+S" twoShortcuts) = true
  /\ In (List.nth 1 twoShortcuts (EmptyString, sampleShortcut))
        (snd (removeKeyboardShortcut "Alt+S" twoShortcuts)).
Proof.
  assert (Hk : keysUnique twoShortcuts).
  { unfold keysUnique; simpl. repeat constructor; simpl; intuition discriminate. }
  assert (Ha : acceleratorsUnique twoShortcuts).
  { unfold acceleratorsUnique; vm_compute. repeat constructor; simpl; intuition discriminate. }
  destruct (remove_tool_prefers_accelerator "Alt+S" sampleShortcut twoShortcuts Hk Ha
              eq_refl) as (H1 & _ & H3).
  split; [exact H1|]. apply H3; [simpl; tauto|vm_compute; reflexivity].
Defined.

End ShortcutExtras.

Module ChatFacts.
Import JsString JsStringFacts Chat.
Local Open Scope list_scope.

Definition incompleteFor (messageId : string) (c : SentChunk) : Prop :=
  chunk_isComplete c = false /\ chunk_messageId c = messageId.

Lemma streamLoop_spec (messageId : string) (base : list ModelMessage)
  (chunks : list Steps.StreamChunk) :
  forall acc st,
  messages st = base ++ [assistantMessage acc] ->
  let (acc', st') := streamLoop messageId (length base) acc chunks st in
  acc' = Steps.accumulateText acc chunks
  /\ messages st' = base ++ [assistantMessage acc']
  /\ exists pre, sent st' = sent st ++ pre /\ List.Forall (incompleteFor messageId) pre.
Proof.
  induction chunks as [|c rest IH]; intros acc st Hm; simpl.
  - split; [reflexivity|split; [exact Hm|]]. exists []. rewrite List.app_nil_r.
    split; [reflexivity|constructor].
  - destruct c as [t| | | | | |]; simpl.
    + destruct t as [|ch r].
      * exact (IH acc st Hm).
      * match goal with
        | |- let (_, _) := streamLoop _ _ ?acc' _ ?st1 in _ =>
            assert (Hm1 : messages st1 = base ++ [assistantMessage acc'])
        end.
        { simpl. rewrite Hm.
          pose proof (insert_app_r base [assistantMessage acc] 0
                        (assistantMessage (acc ++ String ch r))) as E.
          rewrite Nat.add_0_r in E. rewrite E. reflexivity. }
        specialize (IH _ _ Hm1).
        destruct (streamLoop _ _ _ _ _) as [acc' st'].
        destruct IH as (H1 & H2 & pre & H3 & H4).
        split; [exact H1|split; [exact H2|]].
        eexists. split; [rewrite H3; simpl; rewrite <- List.app_assoc; reflexivity|].
        constructor; [split; reflexivity|exact H4].
    + assert (Hm1 : messages (sendStreamChunk messageId EmptyString false st)
                    = base ++ [assistantMessage acc]) by exact Hm.
      specialize (IH _ _ Hm1).
      destruct (streamLoop _ _ _ _ _) as [acc' st'].
      destruct IH as (H1 & H2 & pre & H3 & H4).
      split; [exact H1|split; [exact H2|]].
      eexists. split; [rewrite H3; simpl; rewrite <- List.app_assoc; reflexivity|].
      constructor; [split; reflexivity|exact H4].
    + assert (Hm1 : messages (sendStreamChunk messageId EmptyString false st)
                    = base ++ [assistantMessage acc]) by exact Hm.
      specialize (IH _ _ Hm1).
      destruct (streamLoop _ _ _ _ _) as [acc' st'].
      destruct IH as (H1 & H2 & pre & H3 & H4).
      split; [exact H1|split; [exact H2|]].
      eexists. split; [rewrite H3; simpl; rewrite <- List.app_assoc; reflexivity|].
      constructor; [split; reflexivity|exact H4].
    + exact (IH acc st Hm).
    + exact (IH acc st Hm).
    + exact (IH acc st Hm).
    + exact (IH acc st Hm).
Qed.

(** The content of the last chunk sendChatMessage sends. *)
Definition finalContent (hasModel : bool) (run : StreamRun) : string :=
  if negb hasModel
  then "LLM service is not configured. Please add your API key to the .env file."
  else match run with
       | StreamEnds chunks => Steps.processFullStream chunks
       | StreamThrows _ error | CallThrows error => getErrorMessage error
       end.

(** The messages sendChatMessage adds after the user message. *)
Definition assistantAdded (hasModel : bool) (run : StreamRun) : list ModelMessage :=
  if negb hasModel then []
  else match run with
       | StreamEnds chunks | StreamThrows chunks _ =>
           [assistantMessage (Steps.processFullStream chunks)]
       | CallThrows _ => []
       end.

Lemma sendChatMessage_spec (screenshot : option string) (message messageId : string)
  (hasModel : bool) (run : StreamRun) (st : ChatState) :
  let st' := sendChatMessage screenshot message messageId hasModel run st in
  messages st' = messages st ++ [userMessage screenshot message] ++ assistantAdded hasModel run
  /\ exists pre last,
       sent st' = sent st ++ pre ++ [last]
       /\ List.Forall (incompleteFor messageId) pre
       /\ chunk_isComplete last = true /\ chunk_messageId last = messageId
       /\ chunk_content last = finalContent hasModel run.
Proof.
  unfold sendChatMessage, finalContent, assistantAdded.
  destruct hasModel; simpl.
  2: { split; [rewrite ?List.app_nil_r; reflexivity|].
       eexists [], _. repeat split; constructor. }
  destruct run as [chunks|chunks error|error]; simpl.
  - unfold processFullStream. simpl.
    pose proof (streamLoop_spec messageId (messages st ++ [userMessage screenshot message])
                  chunks EmptyString
                  (startAssistant {| messages := messages st ++ [userMessage screenshot message];
                                     sent := sent st |}) eq_refl) as H.
    destruct (streamLoop _ _ _ _ _) as [acc' st2].
    destruct H as (H1 & H2 & pre & H3 & H4).
    simpl. split.
    + rewrite H2, H1, <- List.app_assoc. reflexivity.
    + eexists pre, _. rewrite H3. simpl. rewrite <- List.app_assoc.
      split; [reflexivity|split; [exact H4|]]. rewrite H1. repeat split.
  - pose proof (streamLoop_spec messageId (messages st ++ [userMessage screenshot message])
                  chunks EmptyString
                  (startAssistant {| messages := messages st ++ [userMessage screenshot message];
                                     sent := sent st |}) eq_refl) as H.
    destruct (streamLoop _ _ _ _ _) as [acc' st2].
    destruct H as (H1 & H2 & pre & H3 & H4).
    unfold handleStreamError, sendErrorMessage, sendStreamChunk. simpl. split.
    + rewrite H2, H1, <- List.app_assoc. reflexivity.
    + eexists pre, _. rewrite H3. simpl. rewrite <- List.app_assoc.
      split; [reflexivity|split; [exact H4|]]. repeat split.
  - split; [rewrite ?List.app_nil_r; reflexivity|].
    eexists [], _. repeat split; constructor.
Qed.

End ChatFacts.

Module ChatExtras.
Import JsString JsStringFacts Chat ChatFacts.
Local Open Scope list_scope.

(** getErrorMessage classifies the lower-cased message, so lower-casing
    the message first changes nothing: "UNAUTHORIZED", "Unauthorized"
    and "unauthorized" get the same text. *)
Theorem error_message_case_insensitive (message : string) :
  getErrorMessage (Tools.ErrorInstance (toLowerCase message))
  = getErrorMessage (Tools.ErrorInstance message).
Proof. unfold getErrorMessage. rewrite toLowerCase_idem. reflexivity. Qed.

(** sendChatMessage sends the renderer exactly one chunk with
    [isComplete: true] for the request, and it is the last one: the
    accumulated text when the stream ends, the classified error when it
    rejects, the configuration message when there is no model. *)
Theorem chat_one_complete_chunk_last (screenshot : option string) (message messageId : string)
  (hasModel : bool) (run : StreamRun) (st : ChatState) :
  exists pre last,
    sent (sendChatMessage screenshot message messageId hasModel run st)
      = sent st ++ pre ++ [last]
    /\ List.Forall (incompleteFor messageId) pre
    /\ chunk_isComplete last = true /\ chunk_messageId last = messageId
    /\ chunk_content last = finalContent hasModel run.
Proof. exact (proj2 (sendChatMessage_spec screenshot message messageId hasModel run st)). Qed.

(** sendChatMessage only appends to [messages]: the user message, then,
    when a model is configured and the stream was read, one assistant
    message holding the streamed text (also when the stream rejects
    midway). *)
Theorem chat_messages_appended (screenshot : option string) (message messageId : string)
  (hasModel : bool) (run : StreamRun) (st : ChatState) :
  messages (sendChatMessage screenshot message messageId hasModel run st)
  = messages st ++ [userMessage screenshot message] ++ assistantAdded hasModel run.
Proof. exact (proj1 (sendChatMessage_spec screenshot message messageId hasModel run st)). Qed.

End ChatExtras.

Module BrowserExtras.
Import Tools JsString JsStringFacts Browser.
Local Open Scope list_scope.

Lemma fullUrlOf_spec (url : string) :
  (startsWith (fullUrlOf url) "http://" || startsWith (fullUrlOf url) "https://") = true
  /\ fullUrlOf (fullUrlOf url) = fullUrlOf url.
Proof.
  unfold fullUrlOf.
  destruct (startsWith url "http://") eqn:H1, (startsWith url "https://") eqn:H2;
    cbn [negb andb orb]; rewrite ?H1, ?H2; cbn [negb andb orb]; try (split; reflexivity).
  assert (Hs : startsWith (String.append "https://" url) "https://" = true) by apply prefix_app.
  assert (Hh : startsWith (String.append "https://" url) "http://" = false) by reflexivity.
  rewrite Hs, Hh. cbn [negb andb orb]. split; reflexivity.
Qed.

(** navigateToUrl on the active tab loads exactly one URL, which starts
    with "http://" or "https://" and which the normalisation leaves as it
    is; the tool succeeds exactly when that load resolves. *)
Theorem navigate_loads_normalized_url (loadURL : string -> option thrown) (url : string)
  (context : ToolContext) (tab : Tab) (w : list effect) :
  getActiveTab context = Some tab ->
  let (res, w') := executeTool (fun _ u tab => navigateToUrl loadURL u tab)
                               context "navigateToUrl" url w in
  w' = w ++ [LoadURL (fullUrlOf url)]
  /\ (startsWith (fullUrlOf url) "http://" || startsWith (fullUrlOf url) "https://") = true
  /\ fullUrlOf (fullUrlOf url) = fullUrlOf url
  /\ exists r, res = inr r
               /\ success r = match loadURL (fullUrlOf url) with None => true | Some _ => false end.
Proof.
  intros Hc. unfold executeTool, withActiveTab. rewrite Hc.
  unfold withErrorHandling, navigateToUrl, bind, perform.
  destruct (fullUrlOf_spec url) as [Hs Hi].
  destruct (loadURL (fullUrlOf url)) as [e|]; simpl.
  - repeat split; try assumption. eexists; split; reflexivity.
  - repeat split; try assumption. eexists; split; reflexivity.
Qed.

Definition navContext : ToolContext := {| getActiveTab := Some ToolsWitnesses.someTab |}.

Lemma navigate_loads_normalized_url_witness :
  getActiveTab navContext = Some ToolsWitnesses.someTab
  /\ let (res, w') := executeTool (fun _ u tab => navigateToUrl (fun _ => None) u tab)
                                  navContext "navigateToUrl" "example.com" [] in
     w' = [] ++ [LoadURL (fullUrlOf "example.com")]
     /\ (startsWith (fullUrlOf "example.com") "http://"
         || startsWith (fullUrlOf "example.com") "https://") = true
     /\ fullUrlOf (fullUrlOf "example.com") = fullUrlOf "example.com"
     /\ exists r, res = inr r
                  /\ success r = match (fun _ : string => @None thrown) (fullUrlOf "example.com")
                                 with None => true | Some _ => false end.
Proof.
  split; [reflexivity|].
  exact (navigate_loads_normalized_url (fun _ => None) "example.com" navContext
           ToolsWitnesses.someTab [] eq_refl).
Defined.

End BrowserExtras.

Module CaptchaExtras.
Import JsString JsStringFacts Captcha CaptchaSolve.
Local Open Scope list_scope.

(** The answer a result reports, if any. *)
Definition reportedAnswer (r : AutoSolveResult) : option string :=
  match r with
  | SolvedAndFilled a | SolvedNotFilled a | SolvedNoSelector a => Some a
  | _ => None
  end.

(** autoSolveCaptcha never reports or fills an answer that is not the
    cleaned text of the model's reply, and never an empty one (an empty
    cleaned answer is a failure); it fills only when the detection has a
    selector, and then with the answer it reports. *)
Theorem autosolve_answer_is_cleaned (detection : Detection) (env : GridEnv)
  (reply : ModelReply) (filled : bool) :
  let (res, fillArg) := autoSolveCaptcha detection env reply filled in
  (forall a, (fillArg = Some a \/ reportedAnswer res = Some a) ->
     exists text, reply = Answered text /\ a = cleanAnswer text /\ a <> EmptyString)
  /\ (forall a, fillArg = Some a ->
        truthy (det_selector detection) = true /\ reportedAnswer res = Some a).
Proof.
  unfold autoSolveCaptcha, solveImageCaptcha, solveTextCaptcha.
  destruct (det_found detection), (det_type detection),
    (truthy (det_imageUrl detection)), (truthy (det_question detection)),
    reply as [text|e]; simpl;
    try (destruct (cleanAnswer text) as [|c r] eqn:Hc);
    try destruct (truthy (det_selector detection)); try destruct filled; simpl;
    split; intros a Ha; try (destruct Ha as [Ha|Ha]); try discriminate;
    injection Ha as <-;
    first [ exists text; split; [reflexivity|split; [symmetry; exact Hc|discriminate]]
          | split; reflexivity ].
Qed.

Lemma escape_identity (l : list ascii) :
  List.Forall (fun c => (isAsciiAlnum c || isJsWhitespace c) = true) l ->
  escapeSingleQuotes l = l /\ ~ In "'"%char l /\ ~ In "\"%char l.
Proof.
  induction 1 as [|c l Hc _ IH]; simpl; [tauto|].
  destruct IH as (IH1 & IH2 & IH3).
  assert (Hq : c <> "'"%char) by (intros ->; discriminate Hc).
  assert (Hb : c <> "\"%char) by (intros ->; discriminate Hc).
  destruct (Ascii.eqb_spec c "'"%char) as [|_]; [contradiction|].
  rewrite IH1. split; [reflexivity|]. split; intros [H|H]; congruence || tauto.
Qed.

(** The quote escaping of fillCaptchaAnswer leaves every cleaned answer
    unchanged: it holds no single quote and no backslash, so the literal
    [element.value = '...'] carries the answer as it is. *)
Theorem fill_escape_noop_on_cleaned (text : string) :
  escapeSingleQuotes (list_ascii_of_string (cleanAnswer text))
    = list_ascii_of_string (cleanAnswer text)
  /\ ~ In "'"%char (list_ascii_of_string (cleanAnswer text))
  /\ ~ In "\"%char (list_ascii_of_string (cleanAnswer text)).
Proof.
  apply escape_identity. unfold cleanAnswer, removeSpecialChars.
  rewrite list_ascii_of_string_of_list_ascii.
  apply List.Forall_forall. intros c Hc. apply List.filter_In in Hc. tauto.
Qed.

End CaptchaExtras.

Module PromptExtras.
Import Prompt PromptFacts.

Lemma substring_length_le (n : nat) (s : string) :
  String.length (substring 0 n s) <= n.
Proof.
  revert n. induction s as [|c s IH]; intros n; simpl.
  - destruct n; simpl; lia.
  - destruct n as [|n]; simpl; [lia|]. specialize (IH n). lia.
Qed.

Lemma append_length (a b : string) : String.length (a ++ b) = String.length a + String.length b.
Proof. induction a as [|c a IH]; simpl; [reflexivity|]. rewrite IH; reflexivity. Qed.

(** truncateText never returns more than [maxLength + 3] characters; it
    leaves text of at most [maxLength] characters as it is, and turns a
    longer text into its first [maxLength] characters followed by "...". *)
Theorem truncate_length_bound (text : string) (maxLength : nat) :
  String.length (truncateText text maxLength) <= maxLength + 3
  /\ (String.length text <= maxLength -> truncateText text maxLength = text)
  /\ (maxLength < String.length text ->
      exists p, truncateText text maxLength = (p ++ "...")%string
                /\ String.length p = maxLength /\ String.prefix p text = true).
Proof.
  unfold truncateText.
  destruct (Nat.leb_spec (String.length text) maxLength) as [Hle|Hgt].
  - split; [lia|]. split; [reflexivity|]. intros; lia.
  - rewrite append_length. pose proof (substring_length_le maxLength text). simpl.
    split; [lia|]. split; [intros; lia|]. intros _.
    destruct (substring_prefix_length maxLength text ltac:(lia)) as [Hs Hp].
    exists (substring 0 maxLength text). tauto.
Qed.

End PromptExtras.
